(** * A scene-graph host adapter for a tree reconciler

  Shallow embedding of the reconciler module: the host-config callbacks
  [createInstance], [insertBefore] and [commitUpdate], the property applier
  [applyProps], and the mount entry points [render] and
  [unmountComponentAtNode], together with the fragment of the JavaScript
  object model those functions exercise.

  Layout:
  - [Text]      string helpers ([split], [toLowerCase], [upperFirst], ...)
  - [JS]        values, strict equality, the object store, and the
                state-and-exception monad the code runs in
  - [Property]  property reads and assignments
  - [Arr]       the array methods the code calls
  - [Host]      the host-config callbacks and the property applier
  - [Mount]     the process-wide root table and the two entry points
  - [Path], [Obs], [Examples]  vocabulary for the statements, and a small
                scene to run them on
  - then the facts and theorems, component by component. *)

From Stdlib Require Import ZArith Ascii String List Lia.
From stdpp Require Import gmap strings list fin_maps.

Local Open Scope string_scope.
Local Open Scope list_scope.

(* ===================================================================== *)
(** ** Strings *)
(* ===================================================================== *)

Module Text.

(** Keys are modelled as byte strings; case mapping acts on the ASCII
    letters and leaves every other byte alone. *)
Definition is_upper (c : ascii) : bool :=
  let n := nat_of_ascii c in (65 <=? n)%nat && (n <=? 90)%nat.

Definition is_lower (c : ascii) : bool :=
  let n := nat_of_ascii c in (97 <=? n)%nat && (n <=? 122)%nat.

Definition lower_ascii (c : ascii) : ascii :=
  if is_upper c then ascii_of_nat (nat_of_ascii c + 32) else c.

Definition upper_ascii (c : ascii) : ascii :=
  if is_lower c then ascii_of_nat (nat_of_ascii c - 32) else c.

(** [String.prototype.toLowerCase] *)
Fixpoint toLowerCase (s : string) : string :=
  match s with
  | EmptyString => EmptyString
  | String c s' => String (lower_ascii c) (toLowerCase s')
  end.

(** lodash [upperFirst]: upper-cases the first character only. *)
Definition upperFirst (s : string) : string :=
  match s with
  | EmptyString => EmptyString
  | String c s' => String (upper_ascii c) s'
  end.

(** [String.prototype.split] with a one-character separator: the result
    is never empty, and [split sep ""] is [[""]]. *)
Fixpoint split (sep : ascii) (s : string) : list string :=
  match s with
  | EmptyString => [EmptyString]
  | String c s' =>
      if Ascii.eqb c sep then EmptyString :: split sep s'
      else match split sep s' with
           | seg :: segs => String c seg :: segs
           | [] => [String c EmptyString]
           end
  end.

(** [String.prototype.startsWith] *)
Definition startsWith (s p : string) : bool := String.prefix p s.

(** No upper-case ASCII letter occurs in the string. *)
Fixpoint all_lower (s : string) : bool :=
  match s with
  | EmptyString => true
  | String c s' => negb (is_upper c) && all_lower s'
  end.

Definition is_digit (c : ascii) : bool :=
  let n := nat_of_ascii c in (48 <=? n)%nat && (n <=? 57)%nat.

Fixpoint digits_value (acc : N) (s : string) : option N :=
  match s with
  | EmptyString => Some acc
  | String c s' =>
      if is_digit c
      then digits_value (acc * 10 + N.of_nat (nat_of_ascii c - 48)) s'
      else None
  end.

(** A property key that is a canonical array index: ["0"], or a digit
    string without a leading zero whose value is below [2^32 - 1]. *)
Definition array_index (k : string) : option nat :=
  match k with
  | EmptyString => None
  | String c rest =>
      if Ascii.eqb c "0" then
        match rest with EmptyString => Some 0%nat | _ => None end
      else
        match digits_value 0 k with
        | Some n => if (n <? 4294967295)%N then Some (N.to_nat n) else None
        | None => None
        end
  end.

End Text.

(* ===================================================================== *)
(** ** The JavaScript fragment *)
(* ===================================================================== *)

Module JS.

(** Object identities. *)
Definition loc := nat.

(** Numbers: the model keeps the integers and NaN, the one number that is
    not strictly equal to itself (fractions and infinities have no
    representative; the code only stores and compares numbers). *)
Inductive number :=
| NaN
| Int (z : Z).

Inductive value :=
| VUndef
| VNull
| VBool (b : bool)
| VNum (n : number)
| VStr (s : string)
| VObj (l : loc)      (* reference to an ordinary object or an array *)
| VFun (l : loc).     (* reference to a callable object *)

Definition number_eqb (a b : number) : bool :=
  match a, b with
  | Int x, Int y => Z.eqb x y
  | _, _ => false
  end.

(** The [===] operator. *)
Definition strict_eq (a b : value) : bool :=
  match a, b with
  | VUndef, VUndef => true
  | VNull, VNull => true
  | VBool x, VBool y => Bool.eqb x y
  | VNum x, VNum y => number_eqb x y
  | VStr x, VStr y => String.eqb x y
  | VObj x, VObj y => Nat.eqb x y
  | VFun x, VFun y => Nat.eqb x y
  | _, _ => false
  end.

(** ToBoolean, as used by [if (child)]. *)
Definition truthy (v : value) : bool :=
  match v with
  | VUndef | VNull => false
  | VBool b => b
  | VNum NaN => false
  | VNum (Int z) => negb (Z.eqb z 0)
  | VStr s => negb (String.eqb s "")
  | VObj _ | VFun _ => true
  end.

(** [typeof v === 'function'] *)
Definition is_function (v : value) : bool :=
  match v with
  | VFun _ => true
  | _ => false
  end.

(** A heap cell: the named properties of an object and, for an array,
    its element sequence.  Named properties stand for whatever a property
    read finds under that name, inherited ones included; accessors and
    read-only properties are outside the fragment. *)
Record cell := Cell {
  fields : gmap string value;
  elems : option (list value)
}.

Definition empty_cell : cell := Cell ∅ None.

(** One property assignment, as a counting stub would observe it. *)
Record write := MkWrite {
  w_target : loc;
  w_field : string;
  w_value : value
}.

Record store := Store {
  heap : gmap loc cell;
  writes : list write;            (* every property assignment, oldest first *)
  events : list (loc * string)    (* every dispatched event, oldest first *)
}.

(** The cell behind a reference; a reference without a cell reads as an
    object without properties. *)
Definition cell_at (s : store) (l : loc) : cell :=
  default empty_cell (heap s !! l).

Inductive exn := TypeError | RangeError.

Inductive outcome (A : Type) :=
| Normal (a : A) (s : store)
| Throw (e : exn) (s : store).
Arguments Normal {A} a s.
Arguments Throw {A} e s.

(** Computations that read and update the store and may throw; a throw
    keeps the store as it was when the exception was raised. *)
Definition M (A : Type) : Type := store -> outcome A.

Definition ret {A} (a : A) : M A := fun s => Normal a s.
Definition throw {A} (e : exn) : M A := fun s => Throw e s.
Definition bind {A B} (m : M A) (k : A -> M B) : M B :=
  fun s => match m s with
           | Normal a s' => k a s'
           | Throw e s' => Throw e s'
           end.

Definition final_store {A} (o : outcome A) : store :=
  match o with
  | Normal _ s => s
  | Throw _ s => s
  end.

Definition threw {A} (o : outcome A) : bool :=
  match o with
  | Normal _ _ => false
  | Throw _ _ => true
  end.

End JS.

Import JS.

Declare Scope js_scope.
Delimit Scope js_scope with js.
Notation "'do' x <- m ; k" := (bind m (fun x => k))
  (at level 10, x name, m at level 100, k at level 200) : js_scope.
Notation "'run' m ; k" := (bind m (fun _ => k))
  (at level 10, m at level 100, k at level 200) : js_scope.
Local Open Scope js_scope.

(* ===================================================================== *)
(** ** Property access *)
(* ===================================================================== *)

Module Property.

(** Reading [c[k]] from a cell.  On an array an index key reads the element
    (or [undefined] past the end) and ["length"] reads the length. *)
Definition cell_get (c : cell) (k : string) : value :=
  match elems c with
  | Some xs =>
      match Text.array_index k with
      | Some i => default VUndef (xs !! i)
      | None =>
          if String.eqb k "length" then VNum (Int (Z.of_nat (length xs)))
          else default VUndef (fields c !! k)
      end
  | None => default VUndef (fields c !! k)
  end.

(** Writing an element of an array: in range it replaces the element, out
    of range the array grows, the gap reading as [undefined]. *)
Definition elems_set (xs : list value) (i : nat) (v : value) : list value :=
  if (i <? length xs)%nat then <[i := v]> xs
  else xs ++ replicate (i - length xs) VUndef ++ [v].

Definition elems_resize (xs : list value) (n : nat) : list value :=
  take n xs ++ replicate (n - length xs) VUndef.

(** Writing [c[k] = v] into a cell; [None] stands for the [RangeError] of an
    invalid array length (any value other than a non-negative integer number
    below [2^32] is taken as invalid: numeric coercion is outside the
    fragment). *)
Definition cell_set (c : cell) (k : string) (v : value) : option cell :=
  match elems c with
  | Some xs =>
      match Text.array_index k with
      | Some i => Some (Cell (fields c) (Some (elems_set xs i v)))
      | None =>
          if String.eqb k "length" then
            match v with
            | VNum (Int n) =>
                if (0 <=? n)%Z && (n <? 4294967296)%Z
                then Some (Cell (fields c) (Some (elems_resize xs (Z.to_nat n))))
                else None
            | _ => None
            end
          else Some (Cell (<[k := v]> (fields c)) (elems c))
      end
  | None => Some (Cell (<[k := v]> (fields c)) None)
  end.

(** Reading a property of a string primitive. *)
Definition str_get (s : string) (k : string) : value :=
  match Text.array_index k with
  | Some i =>
      match String.get i s with
      | Some c => VStr (String c EmptyString)
      | None => VUndef
      end
  | None =>
      if String.eqb k "length" then VNum (Int (Z.of_nat (String.length s)))
      else VUndef
  end.

(** [o[k]]: a [TypeError] on [undefined] and [null]. *)
Definition get (o : value) (k : string) : M value :=
  fun s =>
    match o with
    | VUndef | VNull => Throw TypeError s
    | VObj l | VFun l => Normal (cell_get (cell_at s l) k) s
    | VStr str => Normal (str_get str k) s
    | VBool _ | VNum _ => Normal VUndef s
    end.

(** [o[k] = v].  The module is strict-mode code, so assigning a property of
    a primitive throws, as it does on [undefined] and [null].  Every
    assignment that goes through is appended to the write log. *)
Definition set (o : value) (k : string) (v : value) : M unit :=
  fun s =>
    match o with
    | VObj l | VFun l =>
        match cell_set (cell_at s l) k v with
        | Some c' =>
            Normal tt (Store (<[l := c']> (heap s))
                             (writes s ++ [MkWrite l k v])
                             (events s))
        | None => Throw RangeError s
        end
    | _ => Throw TypeError s
    end.

End Property.

(* ===================================================================== *)
(** ** Arrays *)
(* ===================================================================== *)

Module Arr.

(** The element sequence behind an array reference.  Calling an array
    method on anything else is a [TypeError] (no such method, or a property
    read on [undefined]). *)
Definition elements (a : value) : M (list value) :=
  fun s =>
    match a with
    | VObj l =>
        match elems (cell_at s l) with
        | Some xs => Normal xs s
        | None => Throw TypeError s
        end
    | _ => Throw TypeError s
    end.

Fixpoint index_from (i : Z) (xs : list value) (x : value) : Z :=
  match xs with
  | [] => (-1)%Z
  | y :: ys => if strict_eq y x then i else index_from (i + 1)%Z ys x
  end.

(** [Array.prototype.indexOf]: first position strictly equal to [x],
    or [-1]. *)
Definition indexOf_list (xs : list value) (x : value) : Z := index_from 0 xs x.

(** How [slice] clamps a relative position into [0 .. len]. *)
Definition clamp (len : nat) (k : Z) : nat :=
  if (k <? 0)%Z then Z.to_nat (Z.max (Z.of_nat len + k) 0)
  else Nat.min (Z.to_nat k) len.

(** [Array.prototype.slice(start, end)]; a missing [end] is the length. *)
Definition slice_list (xs : list value) (start : Z) (stop : option Z) : list value :=
  let len := length xs in
  let k := clamp len start in
  let final := match stop with
               | Some e => clamp len e
               | None => len
               end in
  take (final - k) (drop k xs).

Definition indexOf (a x : value) : M Z :=
  do xs <- elements a; ret (indexOf_list xs x).

Definition slice (a : value) (start : Z) (stop : option Z) : M (list value) :=
  do xs <- elements a; ret (slice_list xs start stop).

(** An array literal: a new array object at an unused identity. *)
Definition literal (xs : list value) : M value :=
  fun s =>
    let l := fresh (dom (heap s)) in
    Normal (VObj l)
           (Store (<[l := Cell ∅ (Some xs)]> (heap s)) (writes s) (events s)).

End Arr.

(* ===================================================================== *)
(** ** The host config and the property applier *)
(* ===================================================================== *)

Module Host.

(** A property bag: its own enumerable properties in enumeration order
    (the order of [Object.keys] and [Object.entries]).  The bags are
    descriptors, never mutated, so they are kept as values. *)
Definition bag := list (string * value).

(** [Object.keys(b)] *)
Definition keys (b : bag) : list string := map fst b.

(** [b[key]]: [undefined] when the bag has no such property. *)
Fixpoint bag_get (b : bag) (key : string) : value :=
  match b with
  | [] => VUndef
  | (k, v) :: b' => if String.eqb k key then v else bag_get b' key
  end.

Definition mem (key : string) (ks : list string) : bool :=
  existsb (String.eqb key) ks.

(** lodash [omit(b, ks)]: the properties of [b] whose key is not in [ks],
    in their original order. *)
Definition omit (b : bag) (ks : list string) : bag :=
  List.filter (fun kv => negb (mem (fst kv) ks)) b.

(** [xs.map(f)] run for its effects, left to right; an exception ends it.
    The array [map] returns is dropped by the caller and is not allocated. *)
Fixpoint for_each {A} (f : A -> M unit) (xs : list A) : M unit :=
  match xs with
  | [] => ret tt
  | x :: xs' => run f x; for_each f xs'
  end.

(** [xs.reduce(f, acc)] with an effectful step. *)
Fixpoint reduce {A B} (f : B -> A -> M B) (xs : list A) (acc : B) : M B :=
  match xs with
  | [] => ret acc
  | x :: xs' => do acc' <- f acc x; reduce f xs' acc'
  end.

(** The body of the [map] callback in [applyProps]: one candidate write.
    [split] never returns an empty list, so the last branch is only there
    for the destructuring of one: a [targetName] that is [undefined]. *)
Definition apply_entry (instance : value) (entry : string * value) : M unit :=
  let (key, value) := entry in
  match rev (Text.split "-" key) with
  | targetName :: entries =>
      do target <- reduce (fun acc key => Property.get acc (Text.toLowerCase key))
                          (rev entries) instance;
      Property.set target (Text.toLowerCase targetName) value
  | [] => throw TypeError
  end.

Definition sameProps (newProps oldProps : bag) : list string :=
  List.filter (fun key => strict_eq (bag_get newProps key) (bag_get oldProps key))
              (keys newProps).

Definition handlers (newProps : bag) : list string :=
  List.filter (fun key => is_function (bag_get newProps key)
                          && Text.startsWith key "on")
              (keys newProps).

Definition filteredProps (newProps oldProps : bag) : bag :=
  omit newProps (sameProps newProps oldProps ++ handlers newProps
                 ++ ["children"; "key"; "ref"]).

(** [applyProps(instance, newProps, oldProps)] *)
Definition applyProps (instance : value) (newProps oldProps : bag) : M unit :=
  let filteredProps := filteredProps newProps oldProps in
  if (0 <? length (keys filteredProps))%nat
  then for_each (apply_entry instance) filteredProps
  else ret tt.

(** [target.dispatchEvent({ type })]: the method has to be callable.  The
    listeners it would call belong to the scene-graph runtime; the model
    records the dispatch (target and event type) and runs none of them. *)
Definition dispatchEvent (target : value) (type : string) : M unit :=
  do f <- Property.get target "dispatchEvent";
  if is_function f then
    fun s =>
      match target with
      | VObj l | VFun l =>
          Normal tt (Store (heap s) (writes s) (events s ++ [(l, type)]))
      | _ => Normal tt s
      end
  else throw TypeError.

(** [insertBefore(parentInstance, child, beforeChild)] *)
Definition insertBefore (parentInstance child beforeChild : value) : M unit :=
  if truthy child then
    run Property.set child "parent" parentInstance;
    run dispatchEvent child "added";
    do children <- Property.get parentInstance "children";
    do index <- Arr.indexOf children beforeChild;
    do children1 <- Property.get parentInstance "children";
    do before <- Arr.slice children1 0 (Some index);
    do children2 <- Property.get parentInstance "children";
    do after <- Arr.slice children2 index None;
    do rebuilt <- Arr.literal (before ++ [child] ++ after);
    Property.set parentInstance "children" rebuilt
  else ret tt.

(** [commitUpdate(instance, updatePayload, type, oldProps, newProps)] *)
Definition commitUpdate (instance updatePayload : value) (type : string)
    (oldProps newProps : bag) : M unit :=
  applyProps instance newProps oldProps.

(** [getPublicInstance(instance)] *)
Definition getPublicInstance (instance : value) : value := instance.

Section Runtime.

(** The scene-graph runtime's namespace: under a name it holds either a
    constructor, which builds a new object in the store (and may itself
    throw), or nothing that [new] accepts. *)
Variable THREE : string -> option (M loc).

(** [createInstance(type, props, ...)] *)
Definition createInstance (type : string) (props : bag) : M value :=
  match THREE (Text.upperFirst type) with
  | Some construct =>
      do instance <- construct;
      run applyProps (VObj instance) props [];
      ret (VObj instance)
  | None => throw TypeError
  end.

End Runtime.

(** The children sequence of a node, when it has one. *)
Definition children_of (s : store) (parent : loc) : option (list value) :=
  match Property.cell_get (cell_at s parent) "children" with
  | VObj a => elems (cell_at s a)
  | _ => None
  end.

(** The assignments an outcome added to the write log of [s]. *)
Definition new_writes {A} (s : store) (o : outcome A) : list write :=
  drop (length (writes s)) (writes (final_store o)).

End Host.

(* ===================================================================== *)
(** ** The root table and the mount entry points *)
(* ===================================================================== *)

Module Mount.

Section Engine.

(** The reconciliation engine is an external collaborator.  The adapter
    sees a state it cannot inspect, [createContainer], which hands back a
    root handle (an object), and [updateContainer], whose work either
    completes or raises; on completion the engine fires the callback it was
    given. *)
Variable element : Type.
Variable engine_state : Type.

Inductive update_result :=
| Completed (e : engine_state)
| Failed (e : engine_state).

Variable createContainer : loc -> engine_state -> loc * engine_state.
Variable performUpdate : option element -> loc -> engine_state -> update_result.
Variable getPublicRootInstance : loc -> engine_state -> value.

(** Calls made into the engine, for observation. *)
Inductive call :=
| CreateContainer (container : loc)
| UpdateContainer (el : option element) (root : loc).

(** Module state: [roots] is the [Map] from mount target to root handle. *)
Record world := World {
  roots : gmap loc loc;
  engine : engine_state;
  calls : list call
}.

Inductive result (A : Type) :=
| Returned (a : A) (w : world)
| Raised (w : world).
Arguments Returned {A} a w.
Arguments Raised {A} w.

Definition world_of {A} (r : result A) : world :=
  match r with
  | Returned _ w => w
  | Raised w => w
  end.

Definition raised {A} (r : result A) : bool :=
  match r with
  | Returned _ _ => false
  | Raised _ => true
  end.

(** [const roots = new Map()] *)
Definition initial (e : engine_state) : world := World ∅ e [].

Definition roots_set (container root : loc) (w : world) : world :=
  World (<[container := root]> (roots w)) (engine w) (calls w).

Definition roots_delete (container : loc) (w : world) : world :=
  World (delete container (roots w)) (engine w) (calls w).

(** [Renderer.createContainer(container)] *)
Definition Renderer_createContainer (container : loc) (w : world) : loc * world :=
  let (root, e) := createContainer container (engine w) in
  (root, World (roots w) e (calls w ++ [CreateContainer container])).

(** [Renderer.updateContainer(el, root, null, callback)] *)
Definition Renderer_updateContainer (el : option element) (root : loc)
    (callback : option (world -> world)) (w : world) : result unit :=
  let called := calls w ++ [UpdateContainer el root] in
  match performUpdate el root (engine w) with
  | Completed e =>
      let w' := World (roots w) e called in
      Returned tt (match callback with
                   | Some cb => cb w'
                   | None => w'
                   end)
  | Failed e => Raised (World (roots w) e called)
  end.

(** [render(element, container)].  A root handle is an object, so [!root]
    holds exactly when the table has no entry for the container. *)
Definition render (el : element) (container : loc) (w : world) : result value :=
  let (root, w1) :=
    match roots w !! container with
    | Some root => (root, w)
    | None =>
        let (root, w') := Renderer_createContainer container w in
        (root, roots_set container root w')
    end in
  match Renderer_updateContainer (Some el) root None w1 with
  | Returned _ w2 => Returned (getPublicRootInstance root (engine w2)) w2
  | Raised w2 => Raised w2
  end.

(** [unmountComponentAtNode(container)] *)
Definition unmountComponentAtNode (container : loc) (w : world) : result unit :=
  match roots w !! container with
  | Some root =>
      Renderer_updateContainer None root (Some (roots_delete container)) w
  | None => Returned tt w
  end.

(** A sequence of [render] calls; a caller may catch an exception and go
    on, so the sequence continues from whatever world a call leaves. *)
Fixpoint renders (rs : list (element * loc)) (w : world) : world :=
  match rs with
  | [] => w
  | (el, container) :: rs' => renders rs' (world_of (render el container w))
  end.

Definition is_create (container : loc) (c : call) : bool :=
  match c with
  | CreateContainer c' => Nat.eqb c' container
  | UpdateContainer _ _ => false
  end.

(** How many roots were ever created for a container. *)
Definition creations (container : loc) (cs : list call) : nat :=
  length (List.filter (is_create container) cs).

(** The calls an entry point added to the call log of [w]. *)
Definition new_calls (w w' : world) : list call :=
  drop (length (calls w)) (calls w').

End Engine.

Arguments Completed {engine_state} e.
Arguments Failed {engine_state} e.
Arguments CreateContainer {element} container.
Arguments UpdateContainer {element} el root.
Arguments World {element engine_state} roots engine calls.
Arguments roots {element engine_state} w.
Arguments engine {element engine_state} w.
Arguments calls {element engine_state} w.
Arguments Returned {element engine_state A} a w.
Arguments Raised {element engine_state A} w.
Arguments world_of {element engine_state A} r.
Arguments raised {element engine_state A} r.
Arguments initial {element engine_state} e.
Arguments roots_set {element engine_state} container root w.
Arguments roots_delete {element engine_state} container w.
Arguments Renderer_createContainer {element engine_state} createContainer container w.
Arguments Renderer_updateContainer {element engine_state} performUpdate el root callback w.
Arguments render {element engine_state} createContainer performUpdate
  getPublicRootInstance el container w.
Arguments unmountComponentAtNode {element engine_state} performUpdate container w.
Arguments renders {element engine_state} createContainer performUpdate
  getPublicRootInstance rs w.
Arguments is_create {element} container c.
Arguments creations {element} container cs.
Arguments new_calls {element engine_state} w w'.

End Mount.

(* ===================================================================== *)
(** ** Path syntax *)
(* ===================================================================== *)

Module Path.

(** The leaf segment of a key: what [applyProps] binds to [targetName]. *)
Definition leaf (key : string) : string :=
  match rev (Text.split "-" key) with
  | targetName :: _ => targetName
  | [] => EmptyString
  end.

(** The lookup chain of a key, in the order it is followed. *)
Definition chain (key : string) : list string :=
  match rev (Text.split "-" key) with
  | _ :: entries => rev entries
  | [] => []
  end.

End Path.

(* ===================================================================== *)
(** ** Observations on a run *)
(* ===================================================================== *)

Module Obs.

(** What a run that started in [s] and logged the assignments [ws] may
    have changed: it added [ws] to the write log, dispatched no event, left
    alone every object no assignment targets, and left alone every named
    property no assignment names. *)
Definition wrote {A} (s : store) (o : outcome A) (ws : list write) : Prop :=
  writes (final_store o) = writes s ++ ws /\
  events (final_store o) = events s /\
  (forall l, (forall w, In w ws -> w_target w <> l) ->
             heap (final_store o) !! l = heap s !! l) /\
  (forall l f, (forall w, In w ws -> ~ (w_target w = l /\ w_field w = f)) ->
               fields (cell_at (final_store o) l) !! f = fields (cell_at s l) !! f).

(** The store after the single assignment [l.k = v] on a cell [c']. *)
Definition assigned (s : store) (l : loc) (k : string) (v : value) (c' : cell) : store :=
  Store (<[l := c']> (heap s)) (writes s ++ [MkWrite l k v]) (events s).

(** A named property set on a cell. *)
Definition with_field (c : cell) (k : string) (v : value) : cell :=
  Cell (<[k := v]> (fields c)) (elems c).

(** [v] refers to an object (ordinary, array or callable). *)
Definition object_at (v : value) (l : loc) : Prop := v = VObj l \/ v = VFun l.

(** A scene node as [insertBefore] needs it: an object whose
    [dispatchEvent] is callable. *)
Definition dispatches (s : store) (l : loc) : Prop :=
  is_function (Property.cell_get (cell_at s l) "dispatchEvent") = true.

(** An assignment that comes from an entry of a bag: it carries the
    entry's value and names the lower-cased leaf of the entry's key. *)
Definition from_entries (es : Host.bag) (w : write) : Prop :=
  exists key, In (key, w_value w) es /\ w_field w = Text.toLowerCase (Path.leaf key).

End Obs.

(* ===================================================================== *)
(** ** A small scene *)
(* ===================================================================== *)

Module Examples.

(** A scene node: an object that can dispatch events (its [dispatchEvent]
    is the function object at 9) with some further properties. *)
Definition node (own : list (string * value)) : cell :=
  Cell (list_to_map (("dispatchEvent", VFun 9) :: own)) None.

(** A mesh at 0 with a material at 1 and the children [[A; C]] (nodes 3
    and 4, held by the array at 2); a detached node B at 5. *)
Definition scene : store :=
  Store (list_to_map
           [(0%nat, node [("material", VObj 1); ("children", VObj 2);
                          ("castShadow", VBool false)]);
            (1%nat, Cell {["color" := VStr "green"]} None);
            (2%nat, Cell ∅ (Some [VObj 3; VObj 4]));
            (3%nat, node []);
            (4%nat, node []);
            (5%nat, node []);
            (9%nat, Cell ∅ None)])
        [] [].



(** An engine that numbers its roots and whose updates complete. *)
Definition engine_create (container : loc) (e : nat) : loc * nat :=
  ((100 + e)%nat, S e).

Definition engine_update (el : option unit) (root : loc) (e : nat)
    : Mount.update_result nat :=
  Mount.Completed e.

Definition engine_public (root : loc) (e : nat) : value := VObj root.

End Examples.

(* ===================================================================== *)
(** ** The structural hooks that call into the runtime *)
(* ===================================================================== *)

Module Hooks.

Section Runtime.

(** Running a function object of the scene-graph runtime on a receiver and
    arguments.  The bodies of [add] and [remove] are the runtime's. *)
Variable call : loc -> value -> list value -> M value.

(** The method call [o.name(args)]: the property is read, and called when
    it is callable. *)
Definition invoke (o : value) (name : string) (args : list value) : M value :=
  do f <- Property.get o name;
  match f with
  | VFun l => call l o args
  | _ => throw TypeError
  end.

(** [appendInitialChild(parentInstance, child)] *)
Definition appendInitialChild (parentInstance child : value) : M unit :=
  if truthy child then run invoke parentInstance "add" [child]; ret tt
  else ret tt.

(** [appendChild(parentInstance, child)] *)
Definition appendChild (parentInstance child : value) : M unit :=
  if truthy child then run invoke parentInstance "add" [child]; ret tt
  else ret tt.

(** [appendChildToContainer(parentInstance, child)] *)
Definition appendChildToContainer (parentInstance child : value) : M unit :=
  if truthy child then run invoke parentInstance "add" [child]; ret tt
  else ret tt.

(** [removeChild(parentInstance, child)] *)
Definition removeChild (parentInstance child : value) : M unit :=
  if truthy child then run invoke parentInstance "remove" [child]; ret tt
  else ret tt.

(** [removeChildFromContainer(parentInstance, child)] *)
Definition removeChildFromContainer (parentInstance child : value) : M unit :=
  if truthy child then run invoke parentInstance "remove" [child]; ret tt
  else ret tt.

End Runtime.

End Hooks.

Module Fixtures.

(** A runtime whose methods do nothing, to run the hooks on. *)
Definition idle_call (f : loc) (this : value) (args : list value) : M value :=
  ret VUndef.

(** An engine whose updates fail. *)
Definition failing_update (el : option unit) (root : loc) (e : nat)
    : Mount.update_result nat :=
  Mount.Failed e.

(** A namespace whose only constructor, [Broken], throws. *)
Definition broken_namespace (name : string) : option (M loc) :=
  if String.eqb name "Broken" then Some (throw RangeError) else None.

End Fixtures.

(* ===================================================================== *)
(** ** Facts about strings *)
(* ===================================================================== *)

Section TextFacts.

Import Text.

Lemma lower_ascii_not_upper (c : ascii) : is_upper (lower_ascii c) = false.
Proof. destruct c as [[] [] [] [] [] [] [] []]; reflexivity. Qed.

Lemma lower_ascii_idem (c : ascii) : lower_ascii (lower_ascii c) = lower_ascii c.
Proof. destruct c as [[] [] [] [] [] [] [] []]; reflexivity. Qed.

Lemma lower_ascii_hyphen (c : ascii) :
  Ascii.eqb (lower_ascii c) "-" = Ascii.eqb c "-".
Proof. destruct c as [[] [] [] [] [] [] [] []]; reflexivity. Qed.

Lemma toLowerCase_all_lower (s : string) : all_lower (toLowerCase s) = true.
Proof.
  induction s as [|c s IH]; simpl; [reflexivity|].
  now rewrite lower_ascii_not_upper, IH.
Qed.

Lemma toLowerCase_idem (s : string) :
  toLowerCase (toLowerCase s) = toLowerCase s.
Proof.
  induction s as [|c s IH]; simpl; [reflexivity|].
  now rewrite lower_ascii_idem, IH.
Qed.

Lemma split_nonempty (sep : ascii) (s : string) : split sep s <> [].
Proof.
  induction s as [|c s IH]; simpl; [discriminate|].
  destruct (Ascii.eqb c sep); [discriminate|].
  destruct (split sep s); [contradiction|discriminate].
Qed.

(** Splitting commutes with lower-casing: the separator is not a letter. *)
Lemma split_toLowerCase (s : string) :
  split "-" (toLowerCase s) = map toLowerCase (split "-" s).
Proof.
  induction s as [|c s IH]; simpl; [reflexivity|].
  rewrite lower_ascii_hyphen.
  destruct (Ascii.eqb c "-"); simpl.
  - now rewrite IH.
  - rewrite IH. destruct (split "-" s) as [|seg segs] eqn:E.
    + now destruct (split_nonempty "-" s).
    + reflexivity.
Qed.

End TextFacts.

(* ===================================================================== *)
(** ** Facts about property access *)
(* ===================================================================== *)

Section PropertyFacts.

Import Obs.

Lemma strict_eq_refl (v : value) : v <> VNum NaN -> strict_eq v v = true.
Proof.
  destruct v as [| |b|n|str|l|l]; simpl; intros H; try reflexivity.
  - now destruct b.
  - destruct n; [congruence|]. simpl. apply Z.eqb_refl.
  - apply String.eqb_refl.
  - apply Nat.eqb_refl.
  - apply Nat.eqb_refl.
Qed.

Lemma strict_eq_undef (v : value) : strict_eq v VUndef = false <-> v <> VUndef.
Proof. destruct v; simpl; split; congruence. Qed.

(** A property read never changes the store. *)
Lemma get_cases (o : value) (k : string) (s : store) :
  (exists v, Property.get o k s = Normal v s) \/ Property.get o k s = Throw TypeError s.
Proof. destruct o; simpl; eauto. Qed.

Lemma get_object (o : value) (l : loc) (k : string) (s : store) :
  object_at o l ->
  Property.get o k s = Normal (Property.cell_get (cell_at s l) k) s.
Proof. intros [-> | ->]; reflexivity. Qed.

(** A named property that is neither an index nor ["length"] is stored
    among the fields, on arrays too. *)
Lemma cell_set_named (c : cell) (k : string) (v : value) :
  Text.array_index k = None -> String.eqb k "length" = false ->
  Property.cell_set c k v = Some (with_field c k v).
Proof.
  intros Hi Hl. unfold Property.cell_set, with_field.
  destruct (elems c); [rewrite Hi, Hl|]; reflexivity.
Qed.

Lemma cell_set_fields (c c' : cell) (k f : string) (v : value) :
  Property.cell_set c k v = Some c' -> f <> k -> fields c' !! f = fields c !! f.
Proof.
  unfold Property.cell_set. intros H Hne.
  destruct (elems c) as [xs|].
  - destruct (Text.array_index k); [now inversion H|].
    destruct (String.eqb k "length").
    + destruct v as [| | |[|n]| | |]; try discriminate.
      destruct ((0 <=? n)%Z && (n <? 4294967296)%Z); [now inversion H|discriminate].
    + inversion H; subst; simpl. now rewrite lookup_insert_ne.
  - inversion H; subst; simpl. now rewrite lookup_insert_ne.
Qed.

(** An assignment either goes through, logging exactly itself, or throws
    and leaves the store as it was. *)
Lemma set_cases (o : value) (k : string) (v : value) (s : store) :
  (exists l c', object_at o l /\ Property.cell_set (cell_at s l) k v = Some c' /\
                Property.set o k v s = Normal tt (assigned s l k v c'))
  \/ (exists e, Property.set o k v s = Throw e s).
Proof.
  unfold Property.set, object_at, assigned.
  destruct o; eauto;
    (destruct (Property.cell_set (cell_at s l) k v) as [c'|] eqn:E;
     [left; exists l, c'; eauto | eauto]).
Qed.

Lemma cell_at_assigned_same (s : store) (l : loc) (k : string) (v : value) (c' : cell) :
  cell_at (assigned s l k v c') l = c'.
Proof. unfold cell_at, assigned; simpl. now rewrite lookup_insert_eq. Qed.

Lemma cell_at_assigned_other (s : store) (l l' : loc) (k : string) (v : value) (c' : cell) :
  l <> l' -> cell_at (assigned s l k v c') l' = cell_at s l'.
Proof. intros H. unfold cell_at, assigned; simpl. now rewrite lookup_insert_ne. Qed.

Lemma wrote_nothing {A} (s : store) (o : outcome A) :
  final_store o = s -> wrote s o [].
Proof.
  intros H. unfold wrote. rewrite H, app_nil_r. repeat split; reflexivity.
Qed.

Lemma wrote_assigned (s : store) (l : loc) (k : string) (v : value) (c' : cell) :
  Property.cell_set (cell_at s l) k v = Some c' ->
  wrote s (Normal tt (assigned s l k v c')) [MkWrite l k v].
Proof.
  intros Hc. unfold wrote; simpl. repeat split.
  - intros l' Hl'. rewrite lookup_insert_ne; [reflexivity|].
    intros ->. apply (Hl' (MkWrite l' k v)); [now left|reflexivity].
  - intros l' f Hf. destruct (decide (l = l')) as [<-|Hne].
    + rewrite cell_at_assigned_same.
      apply (cell_set_fields _ _ k f v Hc).
      intros ->. apply (Hf (MkWrite l k v)); [now left|now split].
    + now rewrite cell_at_assigned_other.
Qed.

(** Runs compose: what the second wrote comes after what the first wrote. *)
Lemma wrote_trans {A B} (s : store) (o1 : outcome A) (o2 : outcome B)
    (ws1 ws2 : list write) :
  wrote s o1 ws1 -> wrote (final_store o1) o2 ws2 -> wrote s o2 (ws1 ++ ws2).
Proof.
  intros (W1 & E1 & H1 & F1) (W2 & E2 & H2 & F2). unfold wrote. repeat split.
  - rewrite W2, W1. now rewrite app_assoc.
  - now rewrite E2, E1.
  - intros l Hl. rewrite H2, H1; [reflexivity| |];
      intros w Hw; apply Hl; apply in_or_app; auto.
  - intros l f Hf. rewrite F2, F1; [reflexivity| |];
      intros w Hw; apply Hf; apply in_or_app; auto.
Qed.

Lemma new_writes_wrote {A} (s : store) (o : outcome A) (ws : list write) :
  wrote s o ws -> Host.new_writes s o = ws.
Proof.
  intros (W & _). unfold Host.new_writes. rewrite W.
  now rewrite drop_app_length.
Qed.

End PropertyFacts.

(* ===================================================================== *)
(** ** Facts about the property applier *)
(* ===================================================================== *)

Section ApplierFacts.

Import Obs Host.

(** Following a lookup chain only reads. *)
Lemma reduce_get_cases (xs : list string) (acc : value) (s : store) :
  (exists v, reduce (fun acc key => Property.get acc (Text.toLowerCase key)) xs acc s
             = Normal v s)
  \/ reduce (fun acc key => Property.get acc (Text.toLowerCase key)) xs acc s
     = Throw TypeError s.
Proof.
  revert acc. induction xs as [|x xs IH]; intros acc; simpl.
  - left. now exists acc.
  - unfold bind. destruct (get_cases acc (Text.toLowerCase x) s) as [[v ->] | ->].
    + apply IH.
    + now right.
Qed.

(** One candidate write is one assignment to the lower-cased leaf of its
    key, or an exception with nothing written. *)
Lemma apply_entry_cases (instance : value) (key : string) (v : value) (s : store) :
  (exists l c',
      Property.cell_set (cell_at s l) (Text.toLowerCase (Path.leaf key)) v = Some c' /\
      apply_entry instance (key, v) s
      = Normal tt (assigned s l (Text.toLowerCase (Path.leaf key)) v c'))
  \/ (exists e, apply_entry instance (key, v) s = Throw e s).
Proof.
  unfold apply_entry, Path.leaf.
  destruct (rev (Text.split "-" key)) as [|targetName entries].
  - right. now exists TypeError.
  - unfold bind.
    destruct (reduce_get_cases (rev entries) instance s) as [[target ->] | ->].
    + destruct (set_cases target (Text.toLowerCase targetName) v s)
        as [(l & c' & _ & Hc & ->) | [e ->]].
      * left. now exists l, c'.
      * right. now exists e.
    + right. now exists TypeError.
Qed.

(** Every assignment of a run over a list of entries comes from one of
    the entries. *)
Lemma for_each_wrote (instance : value) (es : bag) (s : store) :
  exists ws, wrote s (for_each (apply_entry instance) es s) ws /\
             Forall (from_entries es) ws.
Proof.
  revert s. induction es as [|[key v] es IH]; intros s; cbn [for_each].
  - exists []. split; [now apply wrote_nothing|constructor].
  - unfold bind.
    destruct (apply_entry_cases instance key v s) as [(l & c' & Hc & ->) | [e ->]].
    + destruct (IH (assigned s l (Text.toLowerCase (Path.leaf key)) v c'))
        as (ws & Hw & Hall).
      exists ([MkWrite l (Text.toLowerCase (Path.leaf key)) v] ++ ws). split.
      * apply (wrote_trans s (Normal tt (assigned s l _ v c')) _ _ _
                 (wrote_assigned s l _ v c' Hc)).
        exact Hw.
      * apply Forall_app. split.
        -- repeat constructor. exists key. simpl. auto.
        -- eapply Forall_impl; [exact Hall|].
           intros w (k & Hin & Hf). exists k. split; [now right|exact Hf].
    + exists []. split; [now apply wrote_nothing|constructor].
Qed.

Lemma filteredProps_incl (newProps oldProps : bag) (kv : string * value) :
  In kv (filteredProps newProps oldProps) -> In kv newProps.
Proof. unfold filteredProps, omit. intros H. now apply filter_In in H. Qed.

Lemma applyProps_unfold (instance : value) (newProps oldProps : bag) (s : store) :
  applyProps instance newProps oldProps s
  = for_each (apply_entry instance) (filteredProps newProps oldProps) s.
Proof.
  unfold applyProps, keys. rewrite length_map.
  destruct (filteredProps newProps oldProps); reflexivity.
Qed.

Lemma applyProps_wrote (instance : value) (newProps oldProps : bag) (s : store) :
  exists ws, wrote s (applyProps instance newProps oldProps s) ws /\
             Forall (from_entries newProps) ws.
Proof.
  rewrite applyProps_unfold.
  destruct (for_each_wrote instance (filteredProps newProps oldProps) s)
    as (ws & Hw & Hall).
  exists ws. split; [exact Hw|].
  eapply Forall_impl; [exact Hall|].
  intros w (k & Hin & Hf). exists k. split; [|exact Hf].
  now apply filteredProps_incl in Hin.
Qed.

Lemma mem_true (key : string) (ks : list string) : mem key ks = true <-> In key ks.
Proof.
  unfold mem. rewrite existsb_exists. split.
  - intros (x & Hin & Heq). apply String.eqb_eq in Heq. now subst.
  - intros H. exists key. split; [exact H|apply String.eqb_refl].
Qed.

Lemma omit_all (b : bag) (ks : list string) :
  (forall kv, In kv b -> In (fst kv) ks) -> omit b ks = [].
Proof.
  intros H. unfold omit. induction b as [|kv b IH]; simpl; [reflexivity|].
  assert (Hm : mem (fst kv) ks = true) by (apply mem_true, H; now left).
  rewrite Hm. simpl. apply IH. intros kv' Hin. apply H. now right.
Qed.

Lemma keys_In (b : bag) (k : string) (v : value) : In (k, v) b -> In k (keys b).
Proof. intros H. unfold keys. apply in_map_iff. now exists (k, v). Qed.

(** What [b[key]] reads is the value of some entry under that key. *)
Lemma bag_get_In (b : bag) (key : string) :
  In key (keys b) -> In (key, bag_get b key) b.
Proof.
  induction b as [|[k v] b IH]; simpl; [contradiction|].
  destruct (String.eqb k key) eqn:E.
  - apply String.eqb_eq in E. subst. now left.
  - intros [H|H]; [subst; now rewrite String.eqb_refl in E|right; auto].
Qed.

End ApplierFacts.

(* ===================================================================== *)
(** ** The property applier: what it writes *)
(* ===================================================================== *)

Section ApplierTheorems.

Import Obs Host.

Lemma new_writes_assigned (s : store) (l : loc) (k : string) (v : value) (c' : cell) :
  new_writes s (Normal tt (assigned s l k v c')) = [MkWrite l k v].
Proof. unfold new_writes, assigned; simpl. now rewrite drop_app_length. Qed.

Lemma new_writes_same {A} (s : store) (a : A) : new_writes s (Normal a s) = [].
Proof. unfold new_writes; simpl. now rewrite drop_all. Qed.

(** A bag with a single candidate entry is applied by applying that entry. *)
Lemma applyProps_single (instance : value) (key : string) (v : value) (s : store) :
  v <> VUndef ->
  Text.startsWith key "on" = false ->
  mem key ["children"; "key"; "ref"] = false ->
  applyProps instance [(key, v)] [] s = bind (apply_entry instance (key, v)) (fun _ => ret tt) s.
Proof.
  intros Hv Hon Hres. rewrite applyProps_unfold.
  assert (E : filteredProps [(key, v)] [] = [(key, v)]).
  { unfold filteredProps, sameProps, handlers, omit. cbn [keys map fst bag_get List.filter].
    rewrite String.eqb_refl. apply strict_eq_undef in Hv. rewrite Hv, Hon.
    rewrite andb_false_r. cbn [app List.filter fst]. now rewrite Hres. }
  rewrite E. reflexivity.
Qed.

(** C2 (amended): for a node whose [material] property refers to an object
    and a value [X] other than [undefined], applying the new bag
    [{ "material-color": X }] against the empty old bag performs exactly one
    assignment, [X] into the [color] property of that object, and changes
    nothing else in the store. *)
Theorem applyProps_nested_path_write
    (instance : value) (n m : loc) (X : value) (s : store) :
  object_at instance n ->
  object_at (Property.cell_get (cell_at s n) "material") m ->
  X <> VUndef ->
  applyProps instance [("material-color", X)] [] s
    = Normal tt (assigned s m "color" X (with_field (cell_at s m) "color" X))
  /\ new_writes s (applyProps instance [("material-color", X)] [] s)
     = [MkWrite m "color" X].
Proof.
  intros Hn Hm HX.
  assert (E : applyProps instance [("material-color", X)] [] s
              = Normal tt (assigned s m "color" X (with_field (cell_at s m) "color" X))).
  { rewrite applyProps_single by (assumption || reflexivity).
    unfold bind, apply_entry.
    change (rev (Text.split "-" "material-color")) with ["color"; "material"].
    cbn [rev app reduce]. unfold bind.
    change (Text.toLowerCase "material") with "material".
    change (Text.toLowerCase "color") with "color".
    rewrite (get_object instance n "material" s Hn). cbn [ret].
    destruct Hm as [-> | ->]; unfold Property.set;
      now rewrite (cell_set_named (cell_at s m) "color" X) by reflexivity. }
  split; [exact E|]. rewrite E. apply new_writes_assigned.
Qed.

(** The mesh of the example scene gets a new material colour. *)
Lemma applyProps_nested_path_write_witness :
  applyProps (VObj 0) [("material-color", VStr "hotpink")] [] Examples.scene
    = Normal tt (assigned Examples.scene 1 "color" (VStr "hotpink")
                   (with_field (cell_at Examples.scene 1) "color" (VStr "hotpink")))
  /\ new_writes Examples.scene
       (applyProps (VObj 0) [("material-color", VStr "hotpink")] [] Examples.scene)
     = [MkWrite 1 "color" (VStr "hotpink")].
Proof.
  apply (applyProps_nested_path_write (VObj 0) 0 1 (VStr "hotpink") Examples.scene).
  - left. reflexivity.
  - left. vm_compute. reflexivity.
  - discriminate.
Defined.

(** C2 as stated fails for [X = undefined]: the key then compares equal to
    the missing old value and nothing is written, although the node has a
    material with a colour. *)
Lemma applyProps_undefined_not_written :
  object_at (Property.cell_get (cell_at Examples.scene 0) "material") 1
  /\ fields (cell_at Examples.scene 1) !! "color" = Some (VStr "green")
  /\ applyProps (VObj 0) [("material-color", VUndef)] [] Examples.scene
     = Normal tt Examples.scene
  /\ new_writes Examples.scene
       (applyProps (VObj 0) [("material-color", VUndef)] [] Examples.scene)
     <> [MkWrite 1 "color" VUndef].
Proof.
  split; [left; vm_compute; reflexivity|].
  split; [vm_compute; reflexivity|].
  split; [vm_compute; reflexivity|].
  vm_compute. discriminate.
Qed.

(** C3: a new bag whose every key is a callable value under a name that
    starts with [on], or one of the reserved keys [children], [key], [ref],
    is applied without any assignment: the store is left as it was,
    whatever the node and the old bag. *)
Theorem applyProps_skips_handlers_and_structural
    (instance : value) (newProps oldProps : bag) (s : store) :
  (forall key, In key (keys newProps) ->
     is_function (bag_get newProps key) && Text.startsWith key "on" = true
     \/ In key ["children"; "key"; "ref"]) ->
  applyProps instance newProps oldProps s = Normal tt s
  /\ new_writes s (applyProps instance newProps oldProps s) = [].
Proof.
  intros H.
  assert (E : filteredProps newProps oldProps = []).
  { unfold filteredProps. apply omit_all. intros [k v] Hin. simpl.
    apply keys_In in Hin.
    apply in_or_app. right. apply in_or_app.
    destruct (H k Hin) as [Hh | Hr]; [left|right; exact Hr].
    unfold handlers. apply filter_In. split; assumption. }
  assert (R : applyProps instance newProps oldProps s = Normal tt s).
  { rewrite applyProps_unfold, E. reflexivity. }
  split; [exact R|]. rewrite R. apply new_writes_same.
Qed.

(** The bag [{ onClick: fn, children: [...], key: "k" }] against the empty
    old bag. *)
Lemma applyProps_skips_handlers_and_structural_witness :
  applyProps (VObj 0) [("onClick", VFun 9); ("children", VObj 2); ("key", VStr "k")]
             [] Examples.scene = Normal tt Examples.scene
  /\ new_writes Examples.scene
       (applyProps (VObj 0)
          [("onClick", VFun 9); ("children", VObj 2); ("key", VStr "k")]
          [] Examples.scene) = [].
Proof.
  apply (applyProps_skips_handlers_and_structural (VObj 0)
           [("onClick", VFun 9); ("children", VObj 2); ("key", VStr "k")]
           [] Examples.scene).
  intros key [<- | [<- | [<- | []]]].
  - left. reflexivity.
  - right. simpl. auto.
  - right. simpl. auto.
Defined.

Lemma sameProps_self (P : bag) :
  (forall k v, In (k, v) P -> v <> VNum NaN) -> sameProps P P = keys P.
Proof.
  intros H. unfold sameProps.
  apply forallb_filter_id. apply forallb_forall. intros key Hin.
  apply strict_eq_refl. apply (H key). now apply bag_get_In.
Qed.

(** C4 (amended): for a bag none of whose values is NaN, [commitUpdate]
    with that bag as both old and new props classifies every key as
    unchanged, leaves no candidate write, and returns with the store exactly
    as it was. *)
Theorem commitUpdate_same_bag_no_write
    (instance payload : value) (type : string) (P : bag) (s : store) :
  (forall k v, In (k, v) P -> v <> VNum NaN) ->
  sameProps P P = keys P
  /\ filteredProps P P = []
  /\ commitUpdate instance payload type P P s = Normal tt s
  /\ new_writes s (commitUpdate instance payload type P P s) = [].
Proof.
  intros H.
  assert (S : sameProps P P = keys P) by now apply sameProps_self.
  assert (E : filteredProps P P = []).
  { unfold filteredProps. apply omit_all. intros [k v] Hin. simpl.
    apply in_or_app. left. rewrite S. now apply keys_In in Hin. }
  assert (R : commitUpdate instance payload type P P s = Normal tt s).
  { unfold commitUpdate. rewrite applyProps_unfold, E. reflexivity. }
  repeat split; try assumption. rewrite R. apply new_writes_same.
Qed.

Lemma commitUpdate_same_bag_no_write_witness :
  commitUpdate (VObj 0) VUndef "mesh"
    [("material-color", VStr "hotpink"); ("rotation-x", VNum (Int 2))]
    [("material-color", VStr "hotpink"); ("rotation-x", VNum (Int 2))]
    Examples.scene = Normal tt Examples.scene.
Proof.
  apply (commitUpdate_same_bag_no_write (VObj 0) VUndef "mesh"
           [("material-color", VStr "hotpink"); ("rotation-x", VNum (Int 2))]
           Examples.scene).
  intros k v [[= <- <-] | [[= <- <-] | []]]; discriminate.
Defined.

(** C4 as stated fails for a bag holding NaN: the value is not strictly
    equal to itself, so the key is a candidate write and is assigned. *)
Lemma commitUpdate_same_bag_nan_written :
  new_writes Examples.scene
    (commitUpdate (VObj 0) VUndef "mesh" [("x", VNum NaN)] [("x", VNum NaN)]
                  Examples.scene)
  = [MkWrite 0 "x" (VNum NaN)].
Proof. vm_compute. reflexivity. Qed.

End ApplierTheorems.

(* ===================================================================== *)
(** ** The property applier: frame and case *)
(* ===================================================================== *)

Section ApplierFrame.

Import Obs Host.

Lemma sameProps_agree (newProps oldProps oldProps' : bag) :
  (forall key, In key (keys newProps) -> bag_get oldProps' key = bag_get oldProps key) ->
  sameProps newProps oldProps' = sameProps newProps oldProps.
Proof.
  intros H. unfold sameProps. apply filter_ext_in.
  intros key Hin. now rewrite (H key Hin).
Qed.

(** An entry is applied along the path its key spells: the lookup chain is
    followed from the node, and the leaf is assigned on what it reaches. *)
Lemma apply_entry_path (instance : value) (key : string) (v : value) (s : store) :
  apply_entry instance (key, v) s
  = bind (reduce (fun acc key => Property.get acc (Text.toLowerCase key))
                 (Path.chain key) instance)
         (fun target => Property.set target (Text.toLowerCase (Path.leaf key)) v) s.
Proof.
  unfold apply_entry, Path.chain, Path.leaf.
  destruct (rev (Text.split "-" key)) as [|targetName entries] eqn:E; [|reflexivity].
  apply (f_equal (@rev string)) in E. rewrite rev_involutive in E.
  now destruct (split_nonempty "-" key).
Qed.

Lemma bind_ext {A B} (m m' : M A) (k k' : A -> M B) (s : store) :
  m s = m' s -> (forall a s', k a s' = k' a s') -> bind m k s = bind m' k' s.
Proof.
  intros Hm Hk. unfold bind. rewrite Hm. destruct (m' s); [apply Hk|reflexivity].
Qed.

Lemma for_each_path (instance : value) (es : bag) (s : store) :
  for_each (apply_entry instance) es s
  = for_each (fun entry =>
                bind (reduce (fun acc key => Property.get acc (Text.toLowerCase key))
                             (Path.chain (fst entry)) instance)
                     (fun target =>
                        Property.set target
                          (Text.toLowerCase (Path.leaf (fst entry))) (snd entry)))
             es s.
Proof.
  revert s. induction es as [|[key v] es IH]; intros s; [reflexivity|].
  cbn [for_each fst snd].
  apply bind_ext; [apply apply_entry_path|intros _ s'; apply IH].
Qed.

(** C8: the assignments of [applyProps] all come from entries of the new
    bag: each carries the value of a new-bag entry and names the lower-cased
    leaf of that entry's key, an entry being applied along the path its key
    spells.  The old bag matters only through the values it holds under keys
    of the new bag, so a key found only in the old bag changes nothing in
    the run; and a property name that no new-bag key leads to keeps its
    value on every object. *)
Theorem applyProps_writes_only_from_new_bag
    (instance : value) (newProps oldProps : bag) (s : store) :
  Forall (from_entries newProps)
         (new_writes s (applyProps instance newProps oldProps s))
  /\ applyProps instance newProps oldProps s
     = for_each (fun entry =>
                   bind (reduce (fun acc key => Property.get acc (Text.toLowerCase key))
                                (Path.chain (fst entry)) instance)
                        (fun target =>
                           Property.set target
                             (Text.toLowerCase (Path.leaf (fst entry))) (snd entry)))
                (filteredProps newProps oldProps) s
  /\ (forall oldProps',
        (forall key, In key (keys newProps) ->
                     bag_get oldProps' key = bag_get oldProps key) ->
        applyProps instance newProps oldProps' s
        = applyProps instance newProps oldProps s)
  /\ (forall f,
        (forall key, In key (keys newProps) ->
                     Text.toLowerCase (Path.leaf key) <> f) ->
        forall l,
          fields (cell_at (final_store (applyProps instance newProps oldProps s)) l) !! f
          = fields (cell_at s l) !! f).
Proof.
  destruct (applyProps_wrote instance newProps oldProps s) as (ws & Hw & Hall).
  split; [|split; [|split]].
  - now rewrite (new_writes_wrote _ _ _ Hw).
  - rewrite applyProps_unfold. apply for_each_path.
  - intros oldProps' Hagree. rewrite !applyProps_unfold. unfold filteredProps.
    now rewrite (sameProps_agree _ _ _ Hagree).
  - intros f Hf l. destruct Hw as (_ & _ & _ & Hfields). apply Hfields.
    intros w Hin [_ Hfield].
    rewrite Forall_forall in Hall. apply list_elem_of_In in Hin.
    destruct (Hall w Hin) as (key & Hkey & Hleaf).
    apply (Hf key); [now apply keys_In in Hkey|congruence].
Qed.

(** A property dropped from the bag: [castShadow] was set by the old bag
    and is absent from the new one; the node keeps its [castshadow] and
    [castShadow] properties as they were. *)
Lemma applyProps_writes_only_from_new_bag_witness :
  applyProps (VObj 0) [("material-color", VStr "hotpink")]
             [("castShadow", VBool true)] Examples.scene
  = applyProps (VObj 0) [("material-color", VStr "hotpink")] [] Examples.scene
  /\ forall l,
       fields (cell_at (final_store
                 (applyProps (VObj 0) [("material-color", VStr "hotpink")]
                             [] Examples.scene)) l) !! "castshadow"
       = fields (cell_at Examples.scene l) !! "castshadow".
Proof.
  destruct (applyProps_writes_only_from_new_bag (VObj 0)
              [("material-color", VStr "hotpink")] [] Examples.scene)
    as (_ & _ & Hold & Hframe).
  split.
  - apply Hold. intros key [<- | []]. reflexivity.
  - apply Hframe. intros key [<- | []]. vm_compute. discriminate.
Defined.

Lemma reduce_get_lower (xs : list string) (acc : value) (s : store) :
  reduce (fun acc key => Property.get acc (Text.toLowerCase key))
         (map Text.toLowerCase xs) acc s
  = reduce (fun acc key => Property.get acc (Text.toLowerCase key)) xs acc s.
Proof.
  revert acc. induction xs as [|x xs IH]; intros acc; cbn [map reduce]; [reflexivity|].
  unfold bind. rewrite toLowerCase_idem.
  destruct (get_cases acc (Text.toLowerCase x) s) as [[v ->] | ->];
    [apply IH|reflexivity].
Qed.

(** The case of the letters in a key is irrelevant to what an entry does. *)
Lemma apply_entry_lower (instance : value) (key : string) (v : value) (s : store) :
  apply_entry instance (Text.toLowerCase key, v) s = apply_entry instance (key, v) s.
Proof.
  unfold apply_entry. rewrite split_toLowerCase, <- map_rev.
  destruct (rev (Text.split "-" key)) as [|targetName entries]; [reflexivity|].
  cbn [map]. rewrite <- map_rev. unfold bind. rewrite reduce_get_lower.
  now rewrite toLowerCase_idem.
Qed.

(** C10: every property name [applyProps] assigns is free of upper-case
    letters; an entry behaves as the entry under the lower-cased key does,
    lookups and assignment alike; and the key [castShadow] with a value
    other than [undefined] is assigned to the [castshadow] property of the
    node, leaving [castShadow] as it was. *)
Theorem applyProps_lowercases_path
    (instance : value) (newProps oldProps : bag) (s : store) :
  Forall (fun w => Text.all_lower (w_field w) = true)
         (new_writes s (applyProps instance newProps oldProps s))
  /\ (forall key v s',
        apply_entry instance (key, v) s'
        = apply_entry instance (Text.toLowerCase key, v) s')
  /\ (forall n v,
        object_at instance n -> v <> VUndef ->
        applyProps instance [("castShadow", v)] [] s
        = Normal tt (assigned s n "castshadow" v
                       (with_field (cell_at s n) "castshadow" v))
        /\ fields (with_field (cell_at s n) "castshadow" v) !! "castShadow"
           = fields (cell_at s n) !! "castShadow").
Proof.
  split; [|split].
  - destruct (applyProps_wrote instance newProps oldProps s) as (ws & Hw & Hall).
    rewrite (new_writes_wrote _ _ _ Hw).
    eapply Forall_impl; [exact Hall|].
    intros w (key & _ & ->). apply toLowerCase_all_lower.
  - intros key v s'. symmetry. apply apply_entry_lower.
  - intros n v Hn Hv. split.
    + rewrite applyProps_single by (assumption || reflexivity).
      unfold bind, apply_entry.
      change (rev (Text.split "-" "castShadow")) with ["castShadow"].
      cbn [rev app reduce ret].
      change (Text.toLowerCase "castShadow") with "castshadow".
      unfold bind, ret.
      destruct Hn as [-> | ->]; unfold Property.set;
        now rewrite (cell_set_named (cell_at s n) "castshadow" v) by reflexivity.
    + unfold with_field; simpl. now rewrite lookup_insert_ne.
Qed.

Lemma applyProps_lowercases_path_witness :
  applyProps (VObj 0) [("castShadow", VBool true)] [] Examples.scene
  = Normal tt (assigned Examples.scene 0 "castshadow" (VBool true)
                 (with_field (cell_at Examples.scene 0) "castshadow" (VBool true)))
  /\ fields (with_field (cell_at Examples.scene 0) "castshadow" (VBool true))
       !! "castShadow"
     = fields (cell_at Examples.scene 0) !! "castShadow".
Proof.
  destruct (applyProps_lowercases_path (VObj 0) [] [] Examples.scene)
    as (_ & _ & H).
  apply (H 0%nat (VBool true)).
  - left. reflexivity.
  - discriminate.
Defined.

End ApplierFrame.

(* ===================================================================== *)
(** ** Facts about arrays *)
(* ===================================================================== *)

Section ArrayFacts.

Lemma strict_eq_eq (a b : value) : strict_eq a b = true -> a = b.
Proof.
  destruct a as [| |x|x|x|x|x], b as [| |y|y|y|y|y]; simpl; try congruence; intros H.
  - apply Bool.eqb_prop in H. congruence.
  - destruct x, y; simpl in H; try discriminate. apply Z.eqb_eq in H. congruence.
  - apply String.eqb_eq in H. congruence.
  - apply Nat.eqb_eq in H. congruence.
  - apply Nat.eqb_eq in H. congruence.
Qed.

(** [indexOf] finds the first occurrence of a value that is in the list
    (NaN is never found). *)
Lemma index_from_found (xs : list value) (x : value) (i : Z) :
  x <> VNum NaN -> In x xs ->
  exists l1 l2, xs = l1 ++ x :: l2 /\ ~ In x l1 /\
                Arr.index_from i xs x = (i + Z.of_nat (length l1))%Z.
Proof.
  intros Hx. revert i. induction xs as [|y ys IH]; intros i Hin; [contradiction|].
  simpl. destruct (strict_eq y x) eqn:E.
  - apply strict_eq_eq in E. subst y.
    exists [], ys. simpl. repeat split; [tauto|lia].
  - assert (Hne : y <> x).
    { intros ->. rewrite strict_eq_refl in E by assumption. discriminate. }
    destruct Hin as [Hin|Hin]; [contradiction|].
    destruct (IH (i + 1)%Z Hin) as (l1 & l2 & -> & Hnot & Hidx).
    exists (y :: l1), l2. simpl. repeat split.
    + intros [H|H]; [contradiction|now apply Hnot].
    + rewrite Hidx. lia.
Qed.

Lemma slice_prefix (l1 l2 : list value) :
  Arr.slice_list (l1 ++ l2) 0 (Some (Z.of_nat (length l1))) = l1.
Proof.
  unfold Arr.slice_list, Arr.clamp. simpl.
  rewrite (proj2 (Z.ltb_ge (Z.of_nat (length l1)) 0)) by lia.
  rewrite Nat2Z.id, length_app, Nat.min_l by lia.
  rewrite Nat.sub_0_r. change (drop 0 (l1 ++ l2)) with (l1 ++ l2).
  apply take_app_length.
Qed.

Lemma slice_suffix (l1 l2 : list value) :
  Arr.slice_list (l1 ++ l2) (Z.of_nat (length l1)) None = l2.
Proof.
  unfold Arr.slice_list, Arr.clamp.
  rewrite (proj2 (Z.ltb_ge (Z.of_nat (length l1)) 0)) by lia.
  rewrite Nat2Z.id, length_app, Nat.min_l by lia.
  rewrite drop_app_length. apply take_ge. lia.
Qed.

(** With the index [-1], [slice(0, -1)] is all but the last element and
    [slice(-1)] is the last element. *)
Lemma slice_minus_one_init (init : list value) (z : value) :
  Arr.slice_list (init ++ [z]) 0 (Some (-1)%Z) = init.
Proof.
  unfold Arr.slice_list, Arr.clamp. simpl.
  rewrite length_app. simpl.
  replace (Z.to_nat (Z.max (Z.of_nat (length init + 1) + -1) 0)) with (length init) by lia.
  rewrite Nat.sub_0_r. change (drop 0 (init ++ [z])) with (init ++ [z]).
  apply take_app_length.
Qed.

Lemma slice_minus_one_last (init : list value) (z : value) :
  Arr.slice_list (init ++ [z]) (-1)%Z None = [z].
Proof.
  unfold Arr.slice_list, Arr.clamp. simpl.
  rewrite length_app. simpl.
  replace (Z.to_nat (Z.max (Z.of_nat (length init + 1) + -1) 0)) with (length init) by lia.
  rewrite drop_app_length. apply take_ge. simpl. lia.
Qed.

End ArrayFacts.

(* ===================================================================== *)
(** ** Sibling insertion *)
(* ===================================================================== *)

Section Insertion.

Import Obs Host.

Lemma cell_get_with_field_eq (c : cell) (k : string) (v : value) :
  Text.array_index k = None -> String.eqb k "length" = false ->
  Property.cell_get (with_field c k v) k = v.
Proof.
  intros Hi Hl. unfold Property.cell_get, with_field; simpl.
  destruct (elems c); [rewrite Hi, Hl|]; now rewrite lookup_insert_eq.
Qed.

Lemma cell_get_with_field_ne (c : cell) (k k' : string) (v : value) :
  k <> k' -> Property.cell_get (with_field c k v) k' = Property.cell_get c k'.
Proof.
  intros Hne. unfold Property.cell_get, with_field; simpl.
  now rewrite lookup_insert_ne.
Qed.

Lemma children_of_inv (s : store) (p : loc) (xs : list value) :
  children_of s p = Some xs ->
  exists a, Property.cell_get (cell_at s p) "children" = VObj a /\
            elems (cell_at s a) = Some xs /\ is_Some (heap s !! p).
Proof.
  unfold children_of. intros H.
  destruct (Property.cell_get (cell_at s p) "children") as [| | | | |a|] eqn:E;
    try discriminate.
  exists a. repeat split; [exact H|].
  unfold cell_at in E. destruct (heap s !! p); [eauto|]. discriminate.
Qed.

(** The first statement of [insertBefore]'s body, [child.parent = ...],
    touches neither the [children] property nor the elements of any
    object. *)
Lemma parent_set_frame (s : store) (c l : loc) (v : value) (k : string) :
  k <> "parent" ->
  Property.cell_get
    (cell_at (assigned s c "parent" v (with_field (cell_at s c) "parent" v)) l) k
  = Property.cell_get (cell_at s l) k
  /\ elems (cell_at (assigned s c "parent" v (with_field (cell_at s c) "parent" v)) l)
     = elems (cell_at s l).
Proof.
  intros Hk. destruct (decide (c = l)) as [<-|Hne].
  - rewrite cell_at_assigned_same. split; [|reflexivity].
    apply cell_get_with_field_ne. congruence.
  - now rewrite cell_at_assigned_other.
Qed.

(** What [insertBefore] does to a parent with a children array, given a
    child that is a scene node: it returns, and the parent's children are
    the two slices of the old sequence around the child. *)
Lemma insertBefore_run (parent child before : value) (p c : loc)
    (xs : list value) (s : store) :
  object_at parent p -> object_at child c -> dispatches s c ->
  children_of s p = Some xs ->
  exists s',
    insertBefore parent child before s = Normal tt s' /\
    children_of s' p
    = Some (Arr.slice_list xs 0 (Some (Arr.indexOf_list xs before))
            ++ [child] ++ Arr.slice_list xs (Arr.indexOf_list xs before) None).
Proof.
  intros Hp Hc Hd Hk.
  destruct (children_of_inv s p xs Hk) as (a & Hch & Hel & Hdom).
  set (index := Arr.indexOf_list xs before).
  set (ys := Arr.slice_list xs 0 (Some index) ++ [child] ++ Arr.slice_list xs index None).
  set (s1 := assigned s c "parent" parent (with_field (cell_at s c) "parent" parent)).
  set (s2 := Store (heap s1) (writes s1) (events s1 ++ [(c, "added")])).
  set (l := fresh (dom (heap s2))).
  set (s3 := Store (<[l := Cell ∅ (Some ys)]> (heap s2)) (writes s2) (events s2)).
  set (s4 := assigned s3 p "children" (VObj l)
               (with_field (cell_at s3 p) "children" (VObj l))).
  assert (F : forall l k, k <> "parent" ->
            Property.cell_get (cell_at s1 l) k = Property.cell_get (cell_at s l) k
            /\ elems (cell_at s1 l) = elems (cell_at s l))
    by (intros; now apply parent_set_frame).
  assert (T : truthy child = true) by (destruct Hc as [-> | ->]; reflexivity).
  assert (E1 : Property.set child "parent" parent s = Normal tt s1).
  { destruct Hc as [-> | ->]; unfold Property.set;
      now rewrite (cell_set_named (cell_at s c) "parent" parent) by reflexivity. }
  assert (E2 : dispatchEvent child "added" s1 = Normal tt s2).
  { unfold dispatchEvent, bind. rewrite (get_object child c "dispatchEvent" s1 Hc).
    destruct (F c "dispatchEvent") as [-> _]; [discriminate|].
    unfold dispatches in Hd. rewrite Hd.
    destruct Hc as [-> | ->]; reflexivity. }
  assert (G : Property.get parent "children" s2 = Normal (VObj a) s2).
  { rewrite (get_object parent p "children" s2 Hp). f_equal.
    change (cell_at s2 p) with (cell_at s1 p).
    destruct (F p "children") as [-> _]; [discriminate|].
    exact Hch. }
  assert (A : Arr.elements (VObj a) s2 = Normal xs s2).
  { unfold Arr.elements. change (cell_at s2 a) with (cell_at s1 a).
    destruct (F a "children") as [_ ->]; [discriminate|].
    now rewrite Hel. }
  assert (Hlp : l <> p).
  { intros Heq. apply (is_fresh (dom (heap s2))). fold l. rewrite Heq.
    apply elem_of_dom. subst s2 s1. unfold assigned. simpl.
    destruct (decide (c = p)) as [->|Hne].
    - rewrite lookup_insert_eq. eauto.
    - now rewrite lookup_insert_ne. }
  assert (E3 : Property.set parent "children" (VObj l) s3 = Normal tt s4).
  { destruct Hp as [-> | ->]; unfold Property.set;
      now rewrite (cell_set_named (cell_at s3 p) "children" (VObj l)) by reflexivity. }
  exists s4. split.
  - unfold insertBefore. rewrite T. unfold bind.
    rewrite E1, E2, G. unfold Arr.indexOf, Arr.slice, bind. rewrite A.
    unfold ret. rewrite G, A, G, A. fold index. unfold Arr.literal.
    fold l. fold ys. fold s3. exact E3.
  - unfold children_of. subst s4. rewrite cell_at_assigned_same.
    rewrite cell_get_with_field_eq by reflexivity.
    rewrite cell_at_assigned_other by congruence.
    unfold cell_at. subst s3. simpl. now rewrite lookup_insert_eq.
Qed.

(** C1: when the parent's children contain [beforeChild], [insertBefore]
    with a scene node as child returns and leaves the parent's children as
    the old sequence with the child put immediately before the first
    occurrence of [beforeChild]: everything in front of it and everything
    from it on stay in place and in order. *)
Theorem insertBefore_places_child_before
    (parent child beforeChild : value) (p c : loc) (xs : list value) (s : store) :
  object_at parent p -> object_at child c -> dispatches s c ->
  children_of s p = Some xs ->
  beforeChild <> VNum NaN -> In beforeChild xs ->
  exists front back s',
    xs = front ++ beforeChild :: back /\ ~ In beforeChild front /\
    insertBefore parent child beforeChild s = Normal tt s' /\
    children_of s' p = Some (front ++ child :: beforeChild :: back).
Proof.
  intros Hp Hc Hd Hk Hnan Hin.
  destruct (index_from_found xs beforeChild 0 Hnan Hin) as (front & back & Hxs & Hnot & Hidx).
  destruct (insertBefore_run parent child beforeChild p c xs s Hp Hc Hd Hk)
    as (s' & Hrun & Hkids).
  exists front, back, s'. repeat split; try assumption.
  rewrite Hkids. unfold Arr.indexOf_list. rewrite Hidx, Z.add_0_l, Hxs.
  now rewrite slice_prefix, slice_suffix.
Qed.

(** Children [[A; C]]: inserting B before C gives [[A; B; C]]. *)
Lemma insertBefore_places_child_before_witness :
  exists s',
    insertBefore (VObj 0) (VObj 5) (VObj 4) Examples.scene = Normal tt s' /\
    children_of s' 0 = Some [VObj 3; VObj 5; VObj 4].
Proof.
  destruct (insertBefore_places_child_before (VObj 0) (VObj 5) (VObj 4) 0 5
              [VObj 3; VObj 4] Examples.scene)
    as (front & back & s' & Hxs & Hnot & Hrun & Hkids).
  - left. reflexivity.
  - left. reflexivity.
  - vm_compute. reflexivity.
  - vm_compute. reflexivity.
  - discriminate.
  - simpl. auto.
  - exists s'. split; [exact Hrun|]. rewrite Hkids.
    destruct front as [|f1 [|f2 front]]; simpl in Hxs.
    + discriminate.
    + injection Hxs as <- <-. reflexivity.
    + injection Hxs as _ <- _. exfalso. apply Hnot. simpl. auto.
Defined.

(** C9: when [indexOf] does not find [beforeChild] (index [-1]), the child
    goes in front of the last element of the old children, [init ++ [z]]
    becoming [init ++ [child; z]], and into an empty sequence as its only
    element; it is neither appended nor rejected. *)
Theorem insertBefore_absent_before_last
    (parent child beforeChild : value) (p c : loc) (xs : list value) (s : store) :
  object_at parent p -> object_at child c -> dispatches s c ->
  children_of s p = Some xs ->
  Arr.indexOf_list xs beforeChild = (-1)%Z ->
  exists s',
    insertBefore parent child beforeChild s = Normal tt s' /\
    (xs = [] -> children_of s' p = Some [child]) /\
    (forall init z, xs = init ++ [z] ->
                    children_of s' p = Some (init ++ [child; z])).
Proof.
  intros Hp Hc Hd Hk Hidx.
  destruct (insertBefore_run parent child beforeChild p c xs s Hp Hc Hd Hk)
    as (s' & Hrun & Hkids).
  exists s'. rewrite Hidx in Hkids. repeat split; [exact Hrun| |].
  - intros ->. exact Hkids.
  - intros init z ->. rewrite Hkids.
    now rewrite slice_minus_one_init, slice_minus_one_last.
Qed.

(** Children [[A; C]] and a [beforeChild] that is not among them. *)
Lemma insertBefore_absent_before_last_witness :
  exists s',
    insertBefore (VObj 0) (VObj 5) (VObj 7) Examples.scene = Normal tt s' /\
    children_of s' 0 = Some [VObj 3; VObj 5; VObj 4].
Proof.
  destruct (insertBefore_absent_before_last (VObj 0) (VObj 5) (VObj 7) 0 5
              [VObj 3; VObj 4] Examples.scene) as (s' & Hrun & _ & Hlast).
  - left. reflexivity.
  - left. reflexivity.
  - vm_compute. reflexivity.
  - vm_compute. reflexivity.
  - reflexivity.
  - exists s'. split; [exact Hrun|]. apply (Hlast [VObj 3] (VObj 4)). reflexivity.
Defined.

End Insertion.

(* ===================================================================== *)
(** ** Instantiation *)
(* ===================================================================== *)

Section Instantiation.

Import Obs Host.

Variable THREE : string -> option (M loc).


End Instantiation.

Section InstantiationExamples.

Import Obs Host.



End InstantiationExamples.

(* ===================================================================== *)
(** ** The root table *)
(* ===================================================================== *)

Section RootTable.

Import Mount.

Variable element : Type.
Variable engine_state : Type.
Variable createContainer : loc -> engine_state -> loc * engine_state.
Variable performUpdate :
  option element -> loc -> engine_state -> update_result engine_state.
Variable getPublicRootInstance : loc -> engine_state -> value.

Local Abbreviation world := (Mount.world element engine_state).
Local Abbreviation render := (Mount.render createContainer performUpdate getPublicRootInstance).
Local Abbreviation renders := (Mount.renders createContainer performUpdate getPublicRootInstance).
Local Abbreviation unmountComponentAtNode := (Mount.unmountComponentAtNode performUpdate).

Lemma updateContainer_plain (el : option element) (root : loc) (w : world) :
  roots (world_of (Renderer_updateContainer performUpdate el root None w)) = roots w
  /\ calls (world_of (Renderer_updateContainer performUpdate el root None w))
     = calls w ++ [UpdateContainer el root].
Proof.
  unfold Renderer_updateContainer.
  destruct (performUpdate el root (engine w)); simpl; auto.
Qed.

Lemma world_of_render (el : element) (container : loc) (w : world) :
  world_of (render el container w)
  = world_of (Renderer_updateContainer performUpdate (Some el)
                (match roots w !! container with
                 | Some root => root
                 | None => fst (createContainer container (engine w))
                 end)
                None
                (match roots w !! container with
                 | Some root => w
                 | None => roots_set container
                             (fst (createContainer container (engine w)))
                             (snd (Renderer_createContainer createContainer container w))
                 end)).
Proof.
  unfold Mount.render, Renderer_createContainer.
  destruct (roots w !! container) as [root|].
  - now destruct (Renderer_updateContainer performUpdate (Some el) root None w).
  - destruct (createContainer container (engine w)) as [root e]. simpl.
    match goal with
    | |- context [Renderer_updateContainer _ _ _ _ ?w1] =>
        now destruct (Renderer_updateContainer performUpdate (Some el) root None w1)
    end.
Qed.

(** A render on a mounted target keeps the table and only updates. *)
Lemma render_mounted (el : element) (container root : loc) (w : world) :
  roots w !! container = Some root ->
  roots (world_of (render el container w)) = roots w
  /\ calls (world_of (render el container w))
     = calls w ++ [UpdateContainer (Some el) root].
Proof.
  intros H. rewrite world_of_render, H. apply updateContainer_plain.
Qed.

(** A render on an unmounted target creates one root and records it. *)
Lemma render_unmounted (el : element) (container : loc) (w : world) :
  roots w !! container = None ->
  roots (world_of (render el container w))
  = <[container := fst (createContainer container (engine w))]> (roots w)
  /\ calls (world_of (render el container w))
     = calls w ++ [CreateContainer container;
                   UpdateContainer (Some el) (fst (createContainer container (engine w)))].
Proof.
  intros H. rewrite world_of_render, H.
  match goal with
  | |- context [Renderer_updateContainer _ ?e ?r None ?w1] =>
      destruct (updateContainer_plain e r w1) as [-> ->]
  end.
  unfold Renderer_createContainer, roots_set.
  destruct (createContainer container (engine w)) as [root e]. simpl.
  split; [reflexivity|]. now rewrite <- app_assoc.
Qed.

Lemma render_mounts (el : element) (container : loc) (w : world) :
  is_Some (roots (world_of (render el container w)) !! container).
Proof.
  destruct (roots w !! container) as [root|] eqn:E.
  - destruct (render_mounted el container root w E) as [-> _]. rewrite E. eauto.
  - destruct (render_unmounted el container w E) as [-> _].
    rewrite lookup_insert_eq. eauto.
Qed.


Lemma creations_app (t : loc) (cs1 cs2 : list (call element)) :
  creations t (cs1 ++ cs2) = (creations t cs1 + creations t cs2)%nat.
Proof. unfold creations. now rewrite List.filter_app, length_app. Qed.

Lemma new_calls_app (w w' : world) (cs : list (call element)) :
  calls w' = calls w ++ cs -> new_calls w w' = cs.
Proof. intros H. unfold new_calls. rewrite H. apply drop_app_length. Qed.

(** What a sequence of renders adds to the call log: at most one root
    creation per target, and none for a target that is mounted already. *)
Lemma renders_calls (rs : list (element * loc)) (t : loc) (w : world) :
  exists cs, calls (renders rs w) = calls w ++ cs /\
             (creations t cs <= 1)%nat /\
             (is_Some (roots w !! t) -> creations t cs = 0%nat).
Proof.
  revert w. induction rs as [|[el container] rs IH]; intros w; cbn [Mount.renders].
  - exists []. rewrite app_nil_r. split; [reflexivity|]. split; [unfold creations; simpl; lia|reflexivity].
  - destruct (IH (world_of (render el container w))) as (cs & Hcs & Hle & Hzero).
    destruct (roots w !! container) as [root|] eqn:E.
    + destruct (render_mounted el container root w E) as [Hr Hc].
      exists ([UpdateContainer (Some el) root] ++ cs).
      rewrite Hcs, Hc, <- app_assoc. split; [reflexivity|].
      rewrite creations_app. rewrite Hr in Hzero.
      split; [unfold creations at 1; simpl; lia|]. intros Ht. rewrite (Hzero Ht). reflexivity.
    + destruct (render_unmounted el container w E) as [Hr Hc].
      exists ([CreateContainer container;
               UpdateContainer (Some el) (fst (createContainer container (engine w)))]
              ++ cs).
      rewrite Hcs, Hc, <- app_assoc. split; [reflexivity|].
      rewrite creations_app. rewrite Hr in Hzero.
      destruct (decide (container = t)) as [->|Hne].
      * rewrite lookup_insert_eq in Hzero.
        rewrite (Hzero ltac:(eauto)). split.
        -- unfold creations; simpl. destruct (Nat.eqb t t); simpl; lia.
        -- intros [r Hr']. congruence.
      * rewrite lookup_insert_ne in Hzero by assumption.
        assert (Z : creations t
                      [CreateContainer container;
                       UpdateContainer (Some el)
                         (fst (createContainer container (engine w)))] = 0%nat).
        { unfold creations; simpl.
          destruct (Nat.eqb_spec container t); [contradiction|reflexivity]. }
        rewrite Z. split; [lia|].
        intros Ht. now rewrite (Hzero Ht).
Qed.

(** C6: the second of two [render] calls on a target finds the root the
    first call left in the table, leaves the table as it is and calls the
    engine only to update that root; and however many renders run, from
    any state of the table, at most one root is created per target, the
    table holding one entry per target at most. *)
Theorem render_reuses_root
    (el1 el2 : element) (target : loc) (w : world)
    (rs : list (element * loc)) :
  (exists root,
     roots (world_of (render el1 target w)) !! target = Some root /\
     roots (world_of (render el2 target (world_of (render el1 target w))))
     = roots (world_of (render el1 target w)) /\
     new_calls (world_of (render el1 target w))
               (world_of (render el2 target (world_of (render el1 target w))))
     = [UpdateContainer (Some el2) root])
  /\ (forall t, (creations t (new_calls w (renders rs w)) <= 1)%nat)
  /\ NoDup (map fst (map_to_list (roots (renders rs w)))).
Proof.
  split; [|split].
  - destruct (render_mounts el1 target w) as [root Hroot].
    exists root. split; [exact Hroot|].
    destruct (render_mounted el2 target root _ Hroot) as [Hr Hc].
    split; [exact Hr|]. now apply new_calls_app.
  - intros t. destruct (renders_calls rs t w) as (cs & Hcs & Hle & _).
    now rewrite (new_calls_app _ _ _ Hcs).
  - apply NoDup_fst_map_to_list.
Qed.

(** C7: on a mounted target, once the engine's teardown completes,
    [unmountComponentAtNode] returns with the target's entry deleted from
    the table, so the next render on that target creates a root again; on a
    target without an entry it returns with nothing changed and no call
    made. *)
Theorem unmount_removes_entry (el : element) (target : loc) (w : world) :
  (forall root e,
     roots w !! target = Some root ->
     performUpdate None root (engine w) = Completed e ->
     raised (unmountComponentAtNode target w) = false /\
     roots (world_of (unmountComponentAtNode target w)) = delete target (roots w) /\
     roots (world_of (unmountComponentAtNode target w)) !! target = None /\
     exists fresh_root,
       new_calls (world_of (unmountComponentAtNode target w))
                 (world_of (render el target
                              (world_of (unmountComponentAtNode target w))))
       = [CreateContainer target; UpdateContainer (Some el) fresh_root])
  /\ (roots w !! target = None ->
      unmountComponentAtNode target w = Returned tt w).
Proof.
  split.
  - intros root e Hroot Hdone.
    assert (U : unmountComponentAtNode target w
                = Returned tt (roots_delete target
                                 (World (roots w) e
                                    (calls w ++ [UpdateContainer None root])))).
    { unfold Mount.unmountComponentAtNode, Renderer_updateContainer.
      now rewrite Hroot, Hdone. }
    rewrite U. simpl. repeat split.
    + apply lookup_delete_eq.
    + match goal with
      | |- context [render el target ?w1] =>
          destruct (render_unmounted el target w1) as [_ Hc];
            [apply lookup_delete_eq|]
      end.
      eexists. apply new_calls_app. exact Hc.
  - intros Hnone. unfold Mount.unmountComponentAtNode. now rewrite Hnone.
Qed.

End RootTable.

Section RootTableExamples.

Import Mount.

(** One target mounted on the example engine, then unmounted; and an
    unmount of a target that was never mounted. *)
Lemma unmount_removes_entry_witness :
  roots (world_of
           (unmountComponentAtNode Examples.engine_update 0
              (world_of (render Examples.engine_create Examples.engine_update
                                Examples.engine_public tt 0 (initial 0%nat)))))
    !! 0%nat = None
  /\ unmountComponentAtNode Examples.engine_update 7
       (world_of (render Examples.engine_create Examples.engine_update
                         Examples.engine_public tt 0 (initial 0%nat)))
     = Returned tt
         (world_of (render Examples.engine_create Examples.engine_update
                           Examples.engine_public tt 0 (initial 0%nat))).
Proof.
  split.
  - destruct (unmount_removes_entry unit nat Examples.engine_create
                Examples.engine_update Examples.engine_public tt 0
                (world_of (render Examples.engine_create Examples.engine_update
                                  Examples.engine_public tt 0 (initial 0%nat))))
      as [Hmounted _].
    destruct (Hmounted 100%nat 1%nat) as (_ & _ & Hgone & _).
    + vm_compute. reflexivity.
    + reflexivity.
    + exact Hgone.
  - destruct (unmount_removes_entry unit nat Examples.engine_create
                Examples.engine_update Examples.engine_public tt 7
                (world_of (render Examples.engine_create Examples.engine_update
                                  Examples.engine_public tt 0 (initial 0%nat))))
      as [_ Hidle].
    apply Hidle. vm_compute. reflexivity.
Defined.

End RootTableExamples.

(* ===================================================================== *)
(** ** Sibling insertion: effects, order and failure *)
(* ===================================================================== *)

Section InsertionEffects.

Import Obs Host.

(** Both slices of [insertBefore] cut the old sequence at the same place,
    whatever the index. *)
Lemma slices_cut (xs : list value) (i : Z) :
  Arr.slice_list xs 0 (Some i) = take (Arr.clamp (length xs) i) xs
  /\ Arr.slice_list xs i None = drop (Arr.clamp (length xs) i) xs
  /\ (Arr.clamp (length xs) i <= length xs)%nat.
Proof.
  assert (B : (Arr.clamp (length xs) i <= length xs)%nat).
  { unfold Arr.clamp. destruct (Z.ltb_spec i 0); lia. }
  unfold Arr.slice_list. repeat split; [| |exact B].
  - change (Arr.clamp (length xs) 0) with (Nat.min 0 (length xs)).
    rewrite Nat.min_0_l, Nat.sub_0_r. reflexivity.
  - apply take_ge. rewrite length_drop. lia.
Qed.

(** The whole effect of a successful [insertBefore]. *)
Lemma insertBefore_effects (parent child before : value) (p c : loc)
    (xs : list value) (s : store) :
  object_at parent p -> object_at child c -> dispatches s c ->
  children_of s p = Some xs ->
  exists s' l,
    insertBefore parent child before s = Normal tt s' /\
    heap s !! l = None /\
    Property.cell_get (cell_at s' p) "children" = VObj l /\
    elems (cell_at s' l)
    = Some (Arr.slice_list xs 0 (Some (Arr.indexOf_list xs before))
            ++ [child] ++ Arr.slice_list xs (Arr.indexOf_list xs before) None) /\
    Property.cell_get (cell_at s' c) "parent" = parent /\
    events s' = events s ++ [(c, "added")] /\
    writes s' = writes s ++ [MkWrite c "parent" parent; MkWrite p "children" (VObj l)] /\
    (forall l', l' <> l -> elems (cell_at s' l') = elems (cell_at s l')) /\
    (forall l', l' <> c -> l' <> p -> l' <> l -> heap s' !! l' = heap s !! l').
Proof.
  intros Hp Hc Hd Hk.
  destruct (children_of_inv s p xs Hk) as (a & Hch & Hel & Hdom).
  set (index := Arr.indexOf_list xs before).
  set (ys := Arr.slice_list xs 0 (Some index) ++ [child] ++ Arr.slice_list xs index None).
  set (s1 := assigned s c "parent" parent (with_field (cell_at s c) "parent" parent)).
  set (s2 := Store (heap s1) (writes s1) (events s1 ++ [(c, "added")])).
  set (l := fresh (dom (heap s2))).
  set (s3 := Store (<[l := Cell ∅ (Some ys)]> (heap s2)) (writes s2) (events s2)).
  set (s4 := assigned s3 p "children" (VObj l)
               (with_field (cell_at s3 p) "children" (VObj l))).
  assert (F : forall l k, k <> "parent" ->
            Property.cell_get (cell_at s1 l) k = Property.cell_get (cell_at s l) k
            /\ elems (cell_at s1 l) = elems (cell_at s l))
    by (intros; now apply parent_set_frame).
  assert (T : truthy child = true) by (destruct Hc as [-> | ->]; reflexivity).
  assert (E1 : Property.set child "parent" parent s = Normal tt s1).
  { destruct Hc as [-> | ->]; unfold Property.set;
      now rewrite (cell_set_named (cell_at s c) "parent" parent) by reflexivity. }
  assert (E2 : dispatchEvent child "added" s1 = Normal tt s2).
  { unfold dispatchEvent, bind. rewrite (get_object child c "dispatchEvent" s1 Hc).
    destruct (F c "dispatchEvent") as [-> _]; [discriminate|].
    unfold dispatches in Hd. rewrite Hd.
    destruct Hc as [-> | ->]; reflexivity. }
  assert (G : Property.get parent "children" s2 = Normal (VObj a) s2).
  { rewrite (get_object parent p "children" s2 Hp). f_equal.
    change (cell_at s2 p) with (cell_at s1 p).
    destruct (F p "children") as [-> _]; [discriminate|].
    exact Hch. }
  assert (A : Arr.elements (VObj a) s2 = Normal xs s2).
  { unfold Arr.elements. change (cell_at s2 a) with (cell_at s1 a).
    destruct (F a "children") as [_ ->]; [discriminate|].
    now rewrite Hel. }
  assert (Hfresh : heap s2 !! l = None).
  { apply not_elem_of_dom. apply is_fresh. }
  assert (Hlc : l <> c).
  { intros Heq. rewrite Heq in Hfresh. subst s2 s1. unfold assigned in Hfresh.
    simpl in Hfresh. rewrite lookup_insert_eq in Hfresh. discriminate. }
  assert (Hls : heap s !! l = None).
  { subst s2 s1. unfold assigned in Hfresh. simpl in Hfresh.
    now rewrite lookup_insert_ne in Hfresh by congruence. }
  assert (Hlp : l <> p).
  { intros Heq. rewrite Heq in Hls. rewrite Hls in Hdom. now destruct Hdom. }
  assert (C3 : forall x, x <> l -> cell_at s3 x = cell_at s1 x).
  { intros x Hx. unfold cell_at. subst s3 s2. simpl.
    now rewrite lookup_insert_ne by congruence. }
  assert (E3 : Property.set parent "children" (VObj l) s3 = Normal tt s4).
  { destruct Hp as [-> | ->]; unfold Property.set;
      now rewrite (cell_set_named (cell_at s3 p) "children" (VObj l)) by reflexivity. }
  exists s4, l. split; [|split; [exact Hls|split; [|split; [|split; [|split; [|split; [|split]]]]]]].
  - unfold insertBefore. rewrite T. unfold bind.
    rewrite E1, E2, G. unfold Arr.indexOf, Arr.slice, bind. rewrite A.
    unfold ret. rewrite G, A, G, A. fold index. unfold Arr.literal.
    fold l. fold ys. fold s3. exact E3.
  - subst s4. rewrite cell_at_assigned_same.
    now rewrite cell_get_with_field_eq by reflexivity.
  - subst s4. rewrite cell_at_assigned_other by congruence.
    unfold cell_at. subst s3. simpl. now rewrite lookup_insert_eq.
  - subst s4. destruct (decide (p = c)) as [->|Hne].
    + rewrite cell_at_assigned_same.
      rewrite cell_get_with_field_ne by discriminate.
      rewrite C3 by congruence. subst s1. rewrite cell_at_assigned_same.
      now rewrite cell_get_with_field_eq by reflexivity.
    + rewrite cell_at_assigned_other by assumption.
      rewrite C3 by congruence. subst s1. rewrite cell_at_assigned_same.
      now rewrite cell_get_with_field_eq by reflexivity.
  - reflexivity.
  - subst s4 s3 s2 s1. unfold assigned. simpl. now rewrite <- app_assoc.
  - intros l' Hl'. subst s4. destruct (decide (p = l')) as [<-|Hne].
    + rewrite cell_at_assigned_same. unfold with_field; simpl.
      rewrite C3 by congruence. now destruct (F p "children") as [_ ->].
    + rewrite cell_at_assigned_other by assumption.
      rewrite C3 by assumption. now destruct (F l' "children") as [_ ->].
  - intros l' H1 H2 H3. subst s4 s3 s2 s1. unfold assigned. simpl.
    now rewrite !lookup_insert_ne by congruence.
Qed.

End InsertionEffects.

Section InsertionProperties.

Import Obs Host.

(** X1: whatever [beforeChild] is, found or not, a successful
    [insertBefore] splices the child into the old children at one position:
    no sibling is lost, duplicated or moved relative to the others, and the
    sequence grows by exactly one. *)
Theorem insertBefore_keeps_siblings
    (parent child beforeChild : value) (p c : loc) (xs : list value) (s : store) :
  object_at parent p -> object_at child c -> dispatches s c ->
  children_of s p = Some xs ->
  exists s' k ys,
    insertBefore parent child beforeChild s = Normal tt s' /\
    children_of s' p = Some ys /\
    (k <= length xs)%nat /\
    ys = take k xs ++ child :: drop k xs /\
    length ys = S (length xs) /\
    Permutation ys (child :: xs).
Proof.
  intros Hp Hc Hd Hk.
  destruct (insertBefore_run parent child beforeChild p c xs s Hp Hc Hd Hk)
    as (s' & Hrun & Hkids).
  destruct (slices_cut xs (Arr.indexOf_list xs beforeChild)) as (S1 & S2 & Hle).
  rewrite S1, S2 in Hkids.
  set (k := Arr.clamp (length xs) (Arr.indexOf_list xs beforeChild)) in *.
  exists s', k, (take k xs ++ child :: drop k xs).
  repeat split; try assumption.
  - rewrite length_app. simpl. rewrite length_take, length_drop. lia.
  - rewrite <- Permutation_middle. now rewrite take_drop.
Qed.

Lemma insertBefore_keeps_siblings_witness :
  exists s' k ys,
    insertBefore (VObj 0) (VObj 5) VUndef Examples.scene = Normal tt s' /\
    children_of s' 0 = Some ys /\
    (k <= 2)%nat /\
    ys = take k [VObj 3; VObj 4] ++ VObj 5 :: drop k [VObj 3; VObj 4] /\
    length ys = 3%nat /\
    Permutation ys [VObj 5; VObj 3; VObj 4].
Proof.
  apply (insertBefore_keeps_siblings (VObj 0) (VObj 5) VUndef 0 5
           [VObj 3; VObj 4] Examples.scene).
  - left. reflexivity.
  - left. reflexivity.
  - vm_compute. reflexivity.
  - vm_compute. reflexivity.
Defined.

(** X2: a successful [insertBefore] links the child: afterwards the
    child's [parent] property reads the parent, one [added] event was
    dispatched on the child and no other, and exactly two properties were
    assigned, [child.parent] and then [parent.children]. *)
Theorem insertBefore_links_child
    (parent child beforeChild : value) (p c : loc) (xs : list value) (s : store) :
  object_at parent p -> object_at child c -> dispatches s c ->
  children_of s p = Some xs ->
  exists s' l,
    insertBefore parent child beforeChild s = Normal tt s' /\
    Property.cell_get (cell_at s' c) "parent" = parent /\
    events s' = events s ++ [(c, "added")] /\
    new_writes s (insertBefore parent child beforeChild s)
    = [MkWrite c "parent" parent; MkWrite p "children" (VObj l)].
Proof.
  intros Hp Hc Hd Hk.
  destruct (insertBefore_effects parent child beforeChild p c xs s Hp Hc Hd Hk)
    as (s' & l & Hrun & _ & _ & _ & Hparent & Hev & Hw & _).
  exists s', l. repeat split; try assumption.
  rewrite Hrun. unfold new_writes. simpl. rewrite Hw. apply drop_app_length.
Qed.

Lemma insertBefore_links_child_witness :
  exists s' l,
    insertBefore (VObj 0) (VObj 5) (VObj 4) Examples.scene = Normal tt s' /\
    Property.cell_get (cell_at s' 5) "parent" = VObj 0 /\
    events s' = events Examples.scene ++ [(5%nat, "added")] /\
    new_writes Examples.scene (insertBefore (VObj 0) (VObj 5) (VObj 4) Examples.scene)
    = [MkWrite 5 "parent" (VObj 0); MkWrite 0 "children" (VObj l)].
Proof.
  apply (insertBefore_links_child (VObj 0) (VObj 5) (VObj 4) 0 5
           [VObj 3; VObj 4] Examples.scene).
  - left. reflexivity.
  - left. reflexivity.
  - vm_compute. reflexivity.
  - vm_compute. reflexivity.
Defined.

(** X3: [insertBefore] rebuilds the children in a new array: the parent's
    [children] property refers to an object that did not exist before,
    every array that existed keeps its elements (the old children array
    among them, so a holder of it sees no change), and every object other
    than the child and the parent is untouched. *)
Theorem insertBefore_rebuilds_fresh_array
    (parent child beforeChild : value) (p c : loc) (xs : list value) (s : store) :
  object_at parent p -> object_at child c -> dispatches s c ->
  children_of s p = Some xs ->
  exists s' l old,
    insertBefore parent child beforeChild s = Normal tt s' /\
    Property.cell_get (cell_at s p) "children" = VObj old /\
    Property.cell_get (cell_at s' p) "children" = VObj l /\
    heap s !! l = None /\ l <> old /\
    elems (cell_at s' old) = Some xs /\
    (forall l', l' <> l -> elems (cell_at s' l') = elems (cell_at s l')) /\
    (forall l', l' <> c -> l' <> p -> l' <> l -> heap s' !! l' = heap s !! l').
Proof.
  intros Hp Hc Hd Hk.
  destruct (insertBefore_effects parent child beforeChild p c xs s Hp Hc Hd Hk)
    as (s' & l & Hrun & Hfresh & Hnew & _ & _ & _ & _ & Hel & Hframe).
  destruct (children_of_inv s p xs Hk) as (old & Hold & Helems & _).
  assert (Hne : l <> old).
  { intros ->. unfold cell_at in Helems. rewrite Hfresh in Helems. discriminate. }
  exists s', l, old. repeat split; try assumption.
  rewrite Hel by congruence. exact Helems.
Qed.

Lemma insertBefore_rebuilds_fresh_array_witness :
  exists s' l old,
    insertBefore (VObj 0) (VObj 5) (VObj 4) Examples.scene = Normal tt s' /\
    Property.cell_get (cell_at Examples.scene 0) "children" = VObj old /\
    Property.cell_get (cell_at s' 0) "children" = VObj l /\
    heap Examples.scene !! l = None /\ l <> old /\
    elems (cell_at s' old) = Some [VObj 3; VObj 4] /\
    (forall l', l' <> l -> elems (cell_at s' l') = elems (cell_at Examples.scene l')) /\
    (forall l', l' <> 5%nat -> l' <> 0%nat -> l' <> l ->
                heap s' !! l' = heap Examples.scene !! l').
Proof.
  apply (insertBefore_rebuilds_fresh_array (VObj 0) (VObj 5) (VObj 4) 0 5
           [VObj 3; VObj 4] Examples.scene).
  - left. reflexivity.
  - left. reflexivity.
  - vm_compute. reflexivity.
  - vm_compute. reflexivity.
Defined.

(** X4: [insertBefore] never takes a child out of its old position: when
    the child is already among the parent's children, it is there twice
    afterwards. *)
Theorem insertBefore_duplicates_present_child
    (parent child beforeChild : value) (p c : loc) (xs : list value) (s : store) :
  object_at parent p -> object_at child c -> dispatches s c ->
  children_of s p = Some xs ->
  In child xs ->
  exists s' ys,
    insertBefore parent child beforeChild s = Normal tt s' /\
    children_of s' p = Some ys /\
    ~ NoDup ys.
Proof.
  intros Hp Hc Hd Hk Hin.
  destruct (insertBefore_run parent child beforeChild p c xs s Hp Hc Hd Hk)
    as (s' & Hrun & Hkids).
  destruct (slices_cut xs (Arr.indexOf_list xs beforeChild)) as (S1 & S2 & _).
  rewrite S1, S2 in Hkids.
  set (k := Arr.clamp (length xs) (Arr.indexOf_list xs beforeChild)) in *.
  exists s', (take k xs ++ [child] ++ drop k xs).
  repeat split; try assumption.
  intros Hnd. apply NoDup_app in Hnd as (_ & Hdisj & Hrest).
  apply list_elem_of_In in Hin. rewrite <- (take_drop k xs) in Hin.
  apply elem_of_app in Hin as [Hin|Hin].
  - apply (Hdisj child Hin). now left.
  - simpl in Hrest. apply NoDup_cons in Hrest as [Hnot _]. contradiction.
Qed.

(** Moving C in front of A in [[A; C]] leaves [[C; A; C]]. *)
Lemma insertBefore_duplicates_present_child_witness :
  exists s' ys,
    insertBefore (VObj 0) (VObj 4) (VObj 3) Examples.scene = Normal tt s' /\
    children_of s' 0 = Some ys /\
    ~ NoDup ys.
Proof.
  apply (insertBefore_duplicates_present_child (VObj 0) (VObj 4) (VObj 3) 0 4
           [VObj 3; VObj 4] Examples.scene).
  - left. reflexivity.
  - left. reflexivity.
  - vm_compute. reflexivity.
  - vm_compute. reflexivity.
  - simpl. auto.
Defined.

End InsertionProperties.

(* ===================================================================== *)
(** ** Structural hooks: falsy children and failures *)
(* ===================================================================== *)

Section HookProperties.

Import Obs Host Hooks.

Variable call : loc -> value -> list value -> M value.

Lemma truthy_false (v : value) :
  truthy v = false <->
  v = VUndef \/ v = VNull \/ v = VBool false \/ v = VNum NaN
  \/ v = VNum (Int 0) \/ v = VStr "".
Proof.
  split.
  - destruct v as [| |[]|[|z]|str|l|l]; simpl; intros H; try discriminate; auto 10.
    + apply negb_false_iff, Z.eqb_eq in H. subst. auto 10.
    + apply negb_false_iff, String.eqb_eq in H. subst. auto 10.
  - intros [-> | [-> | [-> | [-> | [-> | ->]]]]]; reflexivity.
Qed.

(** X5: a falsy child ([undefined], [null], [false], NaN, [0] or the empty
    string) makes each of the six structural hooks return at once: the
    store is left as it was and the runtime is not called, whatever the
    parent is, [undefined] included. *)
Theorem structural_hooks_ignore_falsy_child
    (parentInstance child beforeChild : value) (s : store) :
  child = VUndef \/ child = VNull \/ child = VBool false \/ child = VNum NaN
  \/ child = VNum (Int 0) \/ child = VStr "" ->
  appendInitialChild call parentInstance child s = Normal tt s
  /\ appendChild call parentInstance child s = Normal tt s
  /\ appendChildToContainer call parentInstance child s = Normal tt s
  /\ insertBefore parentInstance child beforeChild s = Normal tt s
  /\ removeChild call parentInstance child s = Normal tt s
  /\ removeChildFromContainer call parentInstance child s = Normal tt s.
Proof.
  intros H. apply truthy_false in H.
  unfold appendInitialChild, appendChild, appendChildToContainer, insertBefore,
    removeChild, removeChildFromContainer.
  rewrite H. repeat split.
Qed.


End HookProperties.

Section HookExamples.

Import Obs Host Hooks.

(** A [null] child offered to a parent that is [undefined]. *)
Lemma structural_hooks_ignore_falsy_child_witness :
  appendChild Fixtures.idle_call VUndef VNull Examples.scene = Normal tt Examples.scene
  /\ insertBefore VUndef VNull (VObj 4) Examples.scene = Normal tt Examples.scene
  /\ removeChild Fixtures.idle_call VUndef VNull Examples.scene = Normal tt Examples.scene.
Proof.
  destruct (structural_hooks_ignore_falsy_child Fixtures.idle_call VUndef VNull
              (VObj 4) Examples.scene) as (_ & H1 & _ & H2 & H3 & _).
  - right. left. reflexivity.
  - repeat split; assumption.
Defined.


End HookExamples.

(* ===================================================================== *)
(** ** Sibling insertion: failures *)
(* ===================================================================== *)

Section InsertionFailures.

Import Obs Host.



(** X8: a truthy child that cannot dispatch events stops [insertBefore]
    before the parent's children are read: a primitive child throws with
    the store untouched, and an object without a callable [dispatchEvent]
    throws with only its [parent] property assigned. *)
Theorem insertBefore_rejects_non_node
    (parent child beforeChild : value) (s : store) :
  truthy child = true ->
  ((forall l, ~ object_at child l) ->
   insertBefore parent child beforeChild s = Throw TypeError s)
  /\ (forall c, object_at child c ->
                is_function (Property.cell_get (cell_at s c) "dispatchEvent") = false ->
                insertBefore parent child beforeChild s
                = Throw TypeError
                    (assigned s c "parent" parent
                       (with_field (cell_at s c) "parent" parent))).
Proof.
  intros T. split.
  - intros Hprim. unfold insertBefore. rewrite T. unfold bind.
    destruct child as [| |b|n|str|l|l]; try reflexivity;
      exfalso; apply (Hprim l); [now left|now right].
  - intros c Hc Hd.
    set (s1 := assigned s c "parent" parent (with_field (cell_at s c) "parent" parent)).
    assert (E1 : Property.set child "parent" parent s = Normal tt s1).
    { destruct Hc as [-> | ->]; unfold Property.set;
        now rewrite (cell_set_named (cell_at s c) "parent" parent) by reflexivity. }
    unfold insertBefore. rewrite T. unfold bind at 1. rewrite E1.
    unfold bind at 1. unfold dispatchEvent, bind.
    rewrite (get_object child c "dispatchEvent" s1 Hc).
    destruct (parent_set_frame s c c parent "dispatchEvent") as [E _]; [discriminate|].
    fold s1 in E. rewrite E, Hd. reflexivity.
Qed.

(** The number 7 as child, and the material at 1 as child. *)
Lemma insertBefore_rejects_non_node_witness :
  insertBefore (VObj 0) (VNum (Int 7)) (VObj 4) Examples.scene
  = Throw TypeError Examples.scene
  /\ insertBefore (VObj 0) (VObj 1) (VObj 4) Examples.scene
     = Throw TypeError
         (assigned Examples.scene 1 "parent" (VObj 0)
            (with_field (cell_at Examples.scene 1) "parent" (VObj 0))).
Proof.
  split.
  - apply (insertBefore_rejects_non_node (VObj 0) (VNum (Int 7)) (VObj 4)
             Examples.scene); [reflexivity|].
    intros l [H | H]; discriminate.
  - apply (insertBefore_rejects_non_node (VObj 0) (VObj 1) (VObj 4)
             Examples.scene); [reflexivity| |].
    + left. reflexivity.
    + vm_compute. reflexivity.
Defined.

End InsertionFailures.

(* ===================================================================== *)
(** ** The property applier: candidates, order and failure *)
(* ===================================================================== *)

Section ApplierProperties.

Import Obs Host.

Lemma filter_sublist {A} (f : A -> bool) (xs : list A) : sublist (List.filter f xs) xs.
Proof.
  induction xs as [|x xs IH]; simpl; [constructor|].
  destruct (f x); [now apply sublist_skip|now apply sublist_cons].
Qed.

(** X9: which entries [applyProps] applies.  An entry of the new bag is a
    candidate write exactly when the bag's value under its key is not
    strictly equal to the old bag's, is not a function under a key starting
    with [on], and the key is none of [children], [key], [ref]; the
    candidates keep the order they have in the new bag. *)
Theorem filteredProps_candidates (newProps oldProps : bag) :
  (forall key v,
     In (key, v) (filteredProps newProps oldProps) <->
     In (key, v) newProps
     /\ strict_eq (bag_get newProps key) (bag_get oldProps key) = false
     /\ is_function (bag_get newProps key) && Text.startsWith key "on" = false
     /\ ~ In key ["children"; "key"; "ref"])
  /\ sublist (filteredProps newProps oldProps) newProps.
Proof.
  split; [|apply filter_sublist].
  intros key v. unfold filteredProps, omit. rewrite filter_In. cbn [fst].
  rewrite negb_true_iff. split.
  - intros [Hin Hmem]. split; [exact Hin|].
    assert (Hk : In key (keys newProps)) by now apply keys_In in Hin.
    assert (Hno : ~ In key (sameProps newProps oldProps ++ handlers newProps
                            ++ ["children"; "key"; "ref"])).
    { intros H. apply mem_true in H. congruence. }
    repeat split.
    + apply not_true_is_false. intros E. apply Hno, in_or_app. left.
      unfold sameProps. now apply filter_In.
    + apply not_true_is_false. intros E. apply Hno, in_or_app. right.
      apply in_or_app. left. unfold handlers. now apply filter_In.
    + intros H. apply Hno, in_or_app. right. apply in_or_app. now right.
  - intros (Hin & Hsame & Hhandler & Hres). split; [exact Hin|].
    apply not_true_is_false. intros H. apply mem_true in H.
    apply in_app_or in H as [H|H]; [|apply in_app_or in H as [H|H]].
    + unfold sameProps in H. apply filter_In in H as [_ H]. congruence.
    + unfold handlers in H. apply filter_In in H as [_ H]. congruence.
    + contradiction.
Qed.

Lemma for_each_app {A} (f : A -> M unit) (xs ys : list A) (s : store) :
  for_each f (xs ++ ys) s
  = match for_each f xs s with
    | Normal _ s1 => for_each f ys s1
    | Throw e s1 => Throw e s1
    end.
Proof.
  revert s. induction xs as [|x xs IH]; intros s; [reflexivity|].
  cbn [app for_each]. unfold bind. destruct (f x s); [apply IH|reflexivity].
Qed.

(** X10: [applyProps] applies its candidates in bag order and is not
    atomic: when the candidates before some entry have been applied and
    that entry throws, the call throws with the store those earlier writes
    produced; the later candidates are never applied. *)
Theorem applyProps_stops_at_first_throw
    (instance : value) (newProps oldProps : bag)
    (applied : bag) (key : string) (v : value) (rest : bag) (s s1 : store) :
  filteredProps newProps oldProps = applied ++ (key, v) :: rest ->
  for_each (apply_entry instance) applied s = Normal tt s1 ->
  threw (apply_entry instance (key, v) s1) = true ->
  exists e,
    applyProps instance newProps oldProps s = Throw e s1
    /\ new_writes s (applyProps instance newProps oldProps s)
       = new_writes s (for_each (apply_entry instance) applied s).
Proof.
  intros Hsplit Hdone Hthrow.
  destruct (apply_entry_cases instance key v s1) as [(l & c' & _ & E) | [e E]].
  - rewrite E in Hthrow. discriminate.
  - exists e.
    assert (R : applyProps instance newProps oldProps s = Throw e s1).
    { rewrite applyProps_unfold, Hsplit, for_each_app, Hdone.
      cbn [for_each]. unfold bind. now rewrite E. }
    split; [exact R|]. now rewrite R, Hdone.
Qed.

(** The mesh gets [castShadow], then the path [a-b] fails; [visible] is
    never assigned. *)
Lemma applyProps_stops_at_first_throw_witness :
  exists e,
    applyProps (VObj 0)
      [("castShadow", VBool true); ("a-b", VNum (Int 1)); ("visible", VBool true)]
      [] Examples.scene
    = Throw e (assigned Examples.scene 0 "castshadow" (VBool true)
                 (with_field (cell_at Examples.scene 0) "castshadow" (VBool true)))
    /\ new_writes Examples.scene
         (applyProps (VObj 0)
            [("castShadow", VBool true); ("a-b", VNum (Int 1)); ("visible", VBool true)]
            [] Examples.scene)
       = new_writes Examples.scene
           (for_each (apply_entry (VObj 0)) [("castShadow", VBool true)] Examples.scene).
Proof.
  apply (applyProps_stops_at_first_throw (VObj 0)
           [("castShadow", VBool true); ("a-b", VNum (Int 1)); ("visible", VBool true)]
           [] [("castShadow", VBool true)] "a-b" (VNum (Int 1))
           [("visible", VBool true)] Examples.scene).
  - reflexivity.
  - reflexivity.
  - vm_compute. reflexivity.
Defined.

Lemma reduce_get_nullish (xs : list string) (acc : value) (s : store) :
  acc = VUndef \/ acc = VNull ->
  reduce (fun acc key => Property.get acc (Text.toLowerCase key)) xs acc s
  = match xs with
    | [] => Normal acc s
    | _ :: _ => Throw TypeError s
    end.
Proof. intros [-> | ->]; destruct xs; reflexivity. Qed.

(** One candidate entry in an otherwise empty exchange. *)
Lemma applyProps_one (instance : value) (key : string) (v : value) (s : store) :
  v <> VUndef ->
  is_function v && Text.startsWith key "on" = false ->
  mem key ["children"; "key"; "ref"] = false ->
  applyProps instance [(key, v)] [] s = apply_entry instance (key, v) s.
Proof.
  intros Hv Hh Hres. rewrite applyProps_unfold.
  assert (E : filteredProps [(key, v)] [] = [(key, v)]).
  { unfold filteredProps, sameProps, handlers, omit.
    cbn [keys map fst bag_get List.filter].
    rewrite String.eqb_refl. apply strict_eq_undef in Hv. rewrite Hv, Hh.
    cbn [app List.filter fst]. now rewrite Hres. }
  rewrite E. cbn [for_each]. unfold bind, ret.
  now destruct (apply_entry instance (key, v) s) as [[] s'|e s'].
Qed.

Lemma reserved_no_chain (key : string) :
  mem key ["children"; "key"; "ref"] = true -> Path.chain key = [].
Proof.
  intros H. apply mem_true in H. destruct H as [<- | [<- | [<- | []]]]; reflexivity.
Qed.

(** X11: a bad property path.  A candidate key whose first segment names a
    property that is [undefined] or [null] on the node makes [applyProps]
    throw a [TypeError] with nothing written. *)
Theorem applyProps_bad_path
    (instance : value) (n : loc) (key seg : string) (more : list string)
    (v : value) (s : store) :
  object_at instance n ->
  Path.chain key = seg :: more ->
  Property.cell_get (cell_at s n) (Text.toLowerCase seg) = VUndef
  \/ Property.cell_get (cell_at s n) (Text.toLowerCase seg) = VNull ->
  v <> VUndef ->
  is_function v && Text.startsWith key "on" = false ->
  applyProps instance [(key, v)] [] s = Throw TypeError s.
Proof.
  intros Hn Hchain Hnull Hv Hh.
  assert (Hres : mem key ["children"; "key"; "ref"] = false).
  { apply not_true_is_false. intros H. apply reserved_no_chain in H. congruence. }
  rewrite applyProps_one by assumption.
  rewrite apply_entry_path, Hchain. cbn [reduce]. unfold bind.
  rewrite (get_object instance n _ s Hn).
  rewrite (reduce_get_nullish more _ s Hnull).
  destruct more; [|reflexivity].
  destruct Hnull as [-> | ->]; reflexivity.
Qed.

(** The mesh has no property [a]. *)
Lemma applyProps_bad_path_witness :
  applyProps (VObj 0) [("a-b", VNum (Int 1))] [] Examples.scene
  = Throw TypeError Examples.scene.
Proof.
  apply (applyProps_bad_path (VObj 0) 0 "a-b" "a" [] (VNum (Int 1)) Examples.scene).
  - left. reflexivity.
  - reflexivity.
  - left. vm_compute. reflexivity.
  - discriminate.
  - reflexivity.
Defined.



End ApplierProperties.

Section FlatBags.

Import Obs Host.





Section Runtime.

Variable THREE : string -> option (M loc).


(** X15: the type tag is case-normalised in its first letter only, so a
    tag and its upper-first form name the same constructor and
    [createInstance] behaves the same on both. *)
Theorem createInstance_upper_first_tag (type : string) (props : bag) (s : store) :
  createInstance THREE (Text.upperFirst type) props s
  = createInstance THREE type props s.
Proof.
  unfold createInstance.
  assert (E : Text.upperFirst (Text.upperFirst type) = Text.upperFirst type).
  { destruct type as [|c rest]; [reflexivity|]. simpl. f_equal.
    destruct c as [[] [] [] [] [] [] [] []]; reflexivity. }
  now rewrite E.
Qed.

End Runtime.


(** X16: the path a key spells.  Its segments are the lookup chain, in the
    order written, followed by the leaf: reversing the split to take the
    leaf and reversing the rest back restores the order.  A key without a
    hyphen has an empty chain. *)
Theorem path_segments_in_order (key : string) :
  Text.split "-" key = Path.chain key ++ [Path.leaf key]
  /\ (Path.chain key = [] <-> Text.split "-" key = [key]).
Proof.
  unfold Path.chain, Path.leaf.
  assert (R : rev (rev (Text.split "-" key)) = Text.split "-" key)
    by apply rev_involutive.
  destruct (rev (Text.split "-" key)) as [|targetName entries] eqn:E.
  - simpl in R. now destruct (split_nonempty "-" key).
  - simpl in R. split; [now rewrite R|].
    assert (J : forall s, Text.split "-" s = [s] \/ (1 < length (Text.split "-" s))%nat).
    { clear. induction s as [|c s IH]; [now left|]. simpl.
      destruct (Ascii.eqb c "-") eqn:Ec.
      - right. simpl. destruct (Text.split "-" s) eqn:Es; [|simpl; lia].
        now destruct (split_nonempty "-" s).
      - destruct IH as [-> | IH]; [now left|].
        right. destruct (Text.split "-" s) as [|seg segs]; simpl in *; lia. }
    split.
    + intros Hnil. rewrite Hnil in R. simpl in R.
      destruct (J key) as [Hone | Hmany]; [exact Hone|].
      rewrite <- R in Hmany. simpl in Hmany. lia.
    + intros Hone. rewrite Hone in R.
      apply (f_equal (@length string)) in R. rewrite length_app in R. simpl in R.
      destruct (rev entries) as [|x xs'] eqn:Er; [reflexivity|simpl in R; lia].
Qed.

End FlatBags.

(* ===================================================================== *)
(** ** The root table: independence, stability, failure *)
(* ===================================================================== *)

Section RootTableProperties.

Import Mount.

Variable element : Type.
Variable engine_state : Type.
Variable createContainer : loc -> engine_state -> loc * engine_state.
Variable performUpdate :
  option element -> loc -> engine_state -> update_result engine_state.
Variable getPublicRootInstance : loc -> engine_state -> value.

Local Abbreviation world := (Mount.world element engine_state).
Local Abbreviation render :=
  (Mount.render createContainer performUpdate getPublicRootInstance).
Local Abbreviation renders :=
  (Mount.renders createContainer performUpdate getPublicRootInstance).
Local Abbreviation unmountComponentAtNode :=
  (Mount.unmountComponentAtNode performUpdate).

(** The three ways an unmount can go. *)
Lemma unmount_cases (target : loc) (w : world) :
  (roots w !! target = None /\ unmountComponentAtNode target w = Returned tt w)
  \/ (exists root e,
        roots w !! target = Some root /\
        performUpdate None root (engine w) = Completed e /\
        unmountComponentAtNode target w
        = Returned tt (World (delete target (roots w)) e
                             (calls w ++ [UpdateContainer None root])))
  \/ (exists root e,
        roots w !! target = Some root /\
        performUpdate None root (engine w) = Failed e /\
        unmountComponentAtNode target w
        = Raised (World (roots w) e (calls w ++ [UpdateContainer None root]))).
Proof.
  unfold Mount.unmountComponentAtNode, Renderer_updateContainer.
  destruct (roots w !! target) as [root|] eqn:E; [|now left].
  right. destruct (performUpdate None root (engine w)) as [e|e] eqn:U.
  - left. exists root, e. auto.
  - right. exists root, e. auto.
Qed.

(** X17: mounts are independent.  Neither [render] nor
    [unmountComponentAtNode] on one target changes the table entry of any
    other target, whether the engine completes or raises. *)
Theorem entry_points_leave_other_targets
    (el : element) (target other : loc) (w : world) :
  target <> other ->
  roots (world_of (render el target w)) !! other = roots w !! other
  /\ roots (world_of (unmountComponentAtNode target w)) !! other = roots w !! other.
Proof.
  intros Hne. split.
  - destruct (roots w !! target) as [root|] eqn:E.
    + now destruct (render_mounted _ _ createContainer performUpdate
                      getPublicRootInstance el target root w E) as [-> _].
    + destruct (render_unmounted _ _ createContainer performUpdate
                  getPublicRootInstance el target w E) as [-> _].
      now rewrite lookup_insert_ne.
  - destruct (unmount_cases target w)
      as [[_ ->] | [(root & e & _ & _ & ->) | (root & e & _ & _ & ->)]];
      simpl; [reflexivity| |reflexivity].
    now rewrite lookup_delete_ne.
Qed.

(** X18: [render] only ever adds to the table.  After any sequence of
    renders the mounted targets are those mounted before together with
    those rendered, and a target that was mounted keeps the root handle it
    had. *)
Theorem renders_extend_table (rs : list (element * loc)) (w : world) :
  dom (roots (renders rs w)) = dom (roots w) ∪ list_to_set (map snd rs)
  /\ (forall target root,
        roots w !! target = Some root ->
        roots (renders rs w) !! target = Some root).
Proof.
  revert w. induction rs as [|[el container] rs IH]; intros w; cbn [Mount.renders].
  - split; [|auto]. cbn [map list_to_set]. now rewrite union_empty_r_L.
  - destruct (IH (world_of (render el container w))) as [Hdom Hkeep].
    destruct (roots w !! container) as [root|] eqn:E.
    + destruct (render_mounted _ _ createContainer performUpdate
                  getPublicRootInstance el container root w E) as [Hr _].
      rewrite Hr in Hdom, Hkeep. split.
      * rewrite Hdom. cbn [map snd list_to_set].
        assert (Hin : container ∈ dom (roots w)) by (apply elem_of_dom; eauto).
        apply set_eq. intros x. rewrite !elem_of_union, elem_of_singleton.
        split; [tauto|]. intros [H | [-> | H]]; auto.
      * exact Hkeep.
    + destruct (render_unmounted _ _ createContainer performUpdate
                  getPublicRootInstance el container w E) as [Hr _].
      rewrite Hr in Hdom, Hkeep. split.
      * rewrite Hdom, dom_insert_L. cbn [map snd list_to_set].
        apply set_eq. intros x. rewrite !elem_of_union, elem_of_singleton. tauto.
      * intros target root Ht. apply Hkeep.
        rewrite lookup_insert_ne; [exact Ht|congruence].
Qed.

(** X19: [render] registers a new root before it asks the engine to
    update.  When that first update raises, [render] raises, but the
    root stays in the table, and the next render on the target goes
    straight to updating that root. *)
Theorem render_failure_keeps_root
    (el el' : element) (target root : loc) (e1 e2 : engine_state) (w : world) :
  roots w !! target = None ->
  createContainer target (engine w) = (root, e1) ->
  performUpdate (Some el) root e1 = Failed e2 ->
  render el target w
  = Raised (World (<[target := root]> (roots w)) e2
                  (calls w ++ [CreateContainer target; UpdateContainer (Some el) root]))
  /\ new_calls (world_of (render el target w))
               (world_of (render el' target (world_of (render el target w))))
     = [UpdateContainer (Some el') root].
Proof.
  intros Hnone Hcreate Hfail.
  assert (R : render el target w
              = Raised (World (<[target := root]> (roots w)) e2
                          (calls w ++ [CreateContainer target;
                                       UpdateContainer (Some el) root]))).
  { unfold Mount.render, Renderer_createContainer, Renderer_updateContainer, roots_set.
    rewrite Hnone, Hcreate. simpl. rewrite Hfail. now rewrite <- app_assoc. }
  split; [exact R|]. rewrite R. cbn [world_of].
  match goal with
  | |- new_calls ?w1 _ = _ =>
      destruct (render_mounted _ _ createContainer performUpdate
                  getPublicRootInstance el' target root w1) as [_ Hc];
        [simpl; apply lookup_insert_eq|]
  end.
  now apply new_calls_app.
Qed.


(** X21: unmounting twice.  After an unmount that did not raise, a second
    unmount of the same target returns at once: the world is unchanged and
    the engine is not called again. *)
Theorem unmount_twice (target : loc) (w : world) :
  raised (unmountComponentAtNode target w) = false ->
  unmountComponentAtNode target (world_of (unmountComponentAtNode target w))
  = Returned tt (world_of (unmountComponentAtNode target w)).
Proof.
  intros Hok.
  destruct (unmount_cases target w)
    as [[Hnone E] | [(root & e & _ & _ & E) | (root & e & _ & _ & E)]];
    rewrite E in *; cbn [world_of].
  - exact E.
  - unfold Mount.unmountComponentAtNode. cbn [roots].
    now rewrite lookup_delete_eq.
  - discriminate.
Qed.

(** X22: mounting and unmounting is a round trip on the table.  For a
    target that was not mounted, a render followed by an unmount that does
    not raise leaves the table exactly as it was before the render. *)
Theorem render_unmount_round_trip (el : element) (target : loc) (w : world) :
  roots w !! target = None ->
  raised (unmountComponentAtNode target (world_of (render el target w))) = false ->
  roots (world_of (unmountComponentAtNode target (world_of (render el target w))))
  = roots w.
Proof.
  intros Hnone Hok.
  destruct (render_unmounted _ _ createContainer performUpdate
              getPublicRootInstance el target w Hnone) as [Hr _].
  destruct (unmount_cases target (world_of (render el target w)))
    as [[Habs _] | [(root & e & _ & _ & E) | (root & e & _ & _ & E)]].
  - rewrite Hr, lookup_insert_eq in Habs. discriminate.
  - rewrite E. cbn [world_of roots]. rewrite Hr.
    rewrite delete_insert_eq. now apply delete_id.
  - rewrite E in Hok. discriminate.
Qed.

(** X23: what [render] returns.  When it returns, the value is the
    engine's public instance of the root the table holds for the target
    afterwards. *)
Theorem render_returns_public_root
    (el : element) (target : loc) (v : value) (w w' : world) :
  render el target w = Returned v w' ->
  exists root,
    roots w' !! target = Some root /\
    v = getPublicRootInstance root (engine w').
Proof.
  unfold Mount.render, Renderer_createContainer, Renderer_updateContainer, roots_set.
  destruct (roots w !! target) as [root|] eqn:E.
  - destruct (performUpdate (Some el) root (engine w)) as [e|e]; [|discriminate].
    intros [= <- <-]. exists root. simpl. auto.
  - destruct (createContainer target (engine w)) as [root e1]. simpl.
    destruct (performUpdate (Some el) root e1) as [e|e]; [|discriminate].
    intros [= <- <-]. exists root. simpl. split; [apply lookup_insert_eq|reflexivity].
Qed.

End RootTableProperties.

Section RootTableRuns.

Import Mount.

Local Abbreviation mounted :=
  (world_of (render Examples.engine_create Examples.engine_update
                    Examples.engine_public tt 0 (initial 0%nat))).

Lemma entry_points_leave_other_targets_witness :
  roots (world_of (render Examples.engine_create Examples.engine_update
                          Examples.engine_public tt 1 mounted)) !! 0%nat
  = roots mounted !! 0%nat
  /\ roots (world_of (unmountComponentAtNode Examples.engine_update 1 mounted)) !! 0%nat
     = roots mounted !! 0%nat.
Proof.
  apply (entry_points_leave_other_targets unit nat Examples.engine_create
           Examples.engine_update Examples.engine_public tt 1 0 mounted).
  discriminate.
Defined.

(** The first render on a target, against an engine whose updates fail. *)
Lemma render_failure_keeps_root_witness :
  render Examples.engine_create Fixtures.failing_update Examples.engine_public
         tt 0 (initial 0%nat)
  = Raised (World (<[0%nat := 100%nat]> ∅) 1%nat
                  ([] ++ [CreateContainer 0; UpdateContainer (Some tt) 100]))
  /\ new_calls
       (world_of (render Examples.engine_create Fixtures.failing_update
                         Examples.engine_public tt 0 (initial 0%nat)))
       (world_of (render Examples.engine_create Fixtures.failing_update
                         Examples.engine_public tt 0
                         (world_of (render Examples.engine_create Fixtures.failing_update
                                           Examples.engine_public tt 0 (initial 0%nat)))))
     = [UpdateContainer (Some tt) 100].
Proof.
  apply (render_failure_keeps_root unit nat Examples.engine_create
           Fixtures.failing_update Examples.engine_public tt tt 0 100 1%nat 1%nat
           (initial 0%nat)); reflexivity.
Defined.


Lemma unmount_twice_witness :
  unmountComponentAtNode Examples.engine_update 0
    (world_of (unmountComponentAtNode Examples.engine_update 0 mounted))
  = Returned tt (world_of (unmountComponentAtNode Examples.engine_update 0 mounted)).
Proof.
  apply (unmount_twice unit nat Examples.engine_update 0 mounted).
  vm_compute. reflexivity.
Defined.

Lemma render_unmount_round_trip_witness :
  roots (world_of (unmountComponentAtNode Examples.engine_update 0 mounted))
  = roots (initial (element := unit) 0%nat).
Proof.
  apply (render_unmount_round_trip unit nat Examples.engine_create
           Examples.engine_update Examples.engine_public tt 0 (initial 0%nat)).
  - reflexivity.
  - vm_compute. reflexivity.
Defined.

Lemma render_returns_public_root_witness :
  exists root,
    roots mounted !! 0%nat = Some root /\
    VObj 100 = Examples.engine_public root (engine mounted).
Proof.
  apply (render_returns_public_root unit nat Examples.engine_create
           Examples.engine_update Examples.engine_public tt 0 (VObj 100)
           (initial 0%nat) mounted).
  vm_compute. reflexivity.
Defined.

End RootTableRuns.
